(** * Fantasy-UCL: the player-statistics scraper [scraping/utils.py]

    A shallow embedding of [getPlayersData] and of the pieces it is built
    from: the identifier normaliser, the target set, the per-player
    extraction over a parsed page, the per-match incident counts, the
    data frame that accumulates the rows and the CSV file it is written to.

    What lies outside the Python source is kept abstract:
    - the browser and the HTML parser are a function [render] from a URL to
      either an exception or the answers that the queries of the source
      ([find], [find_all], [contents], [get]) give on the parsed page; a
      child of a node ([contents[0]]) is a text or an element;
    - the CSV file is given by the table that [to_csv] was handed: its text
      is the rendering of that table, each cell written as a text.
      [read_csv] reads the texts back column by column; which texts it
      turns into numbers, booleans or missing values is a parameter, the
      [Reader]. A write to the file always succeeds. *)

From Stdlib Require Import ZArith Ascii String.
From stdpp Require Import base decidable option list gmap sets strings pretty.

Local Open Scope string_scope.
Local Open Scope list_scope.
Local Open Scope Z_scope.
Local Open Scope nat_scope.

(** ** Exceptions and the error monad of pure code *)

Inductive exn :=
| AttributeError (msg : string)
| IndexError (msg : string)
| ValueError (msg : string)
| TypeError (msg : string)
| RenderError (msg : string).

(** [str(e)], as printed by the handler of the driver. *)
Definition str_exn (e : exn) : string :=
  match e with
  | AttributeError m | IndexError m | ValueError m | TypeError m
  | RenderError m => m
  end.

Definition result (A : Type) : Type := exn + A.

Definition ret {A} (a : A) : result A := inr a.
Definition raise {A} (e : exn) : result A := inl e.
Definition bind {A B} (m : result A) (k : A -> result B) : result B :=
  match m with
  | inl e => inl e
  | inr a => k a
  end.

Declare Scope result_scope.
Delimit Scope result_scope with res.
Notation "x <- m ;; k" := (bind m (fun x => k))
  (at level 100, m at next level, right associativity) : result_scope.

(** A list comprehension [[f x for x in l]] whose element expression may
    raise: elements are evaluated from left to right. *)
Fixpoint list_comp {A B} (f : A -> result B) (l : list A) : result (list B) :=
  match l with
  | [] => ret []
  | x :: l' => (y <- f x ;; ys <- list_comp f l' ;; ret (y :: ys))%res
  end.

(** [None.attr] *)
Definition none_has_no (attr : string) : exn :=
  AttributeError ("'NoneType' object has no attribute '" +:+ attr +:+ "'").

(** [o.attr] for [o] the answer of a [find], which is [None] when nothing
    matches. *)
Definition deref {A} (o : option A) (attr : string) : result A :=
  match o with
  | None => raise (none_has_no attr)
  | Some a => ret a
  end.

(** A child of a node, as [contents] lists them: a text (a
    [NavigableString], which is a [str]) or an element (a [Tag]), given by
    its markup. *)
Inductive node :=
| Text (s : string)
| Element (markup : string).

(** [contents[0]] *)
Definition first_content (contents : list node) : result node :=
  match contents with
  | [] => raise (IndexError "list index out of range")
  | c :: _ => ret c
  end.

(** ** Text *)

(** The character class [0-9]. *)
Definition is_digit (c : ascii) : bool :=
  (48 <=? nat_of_ascii c) && (nat_of_ascii c <=? 57).

Definition is_period (c : ascii) : bool :=
  nat_of_ascii c =? 46.

(** [re.sub(cls, "", s)] for a pattern [cls] that matches one character:
    every match is replaced by the empty string. *)
Fixpoint re_sub_class (matches : ascii -> bool) (s : string) : string :=
  match s with
  | EmptyString => EmptyString
  | String c s' =>
      if matches c then re_sub_class matches s'
      else String c (re_sub_class matches s')
  end.

(** [re.sub("[^0-9]", "", s)] *)
Definition clean_minutes (s : string) : string :=
  re_sub_class (fun c => negb (is_digit c)) s.

(** [re.sub("[^0-9\.]", "", s)] *)
Definition clean_rating (s : string) : string :=
  re_sub_class (fun c => negb (is_digit c || is_period c)) s.

(** [s.split(sep)] for a one-character separator: the pieces between the
    separators, never an empty list. *)
Fixpoint split (sep : ascii) (s : string) : list string :=
  match s with
  | EmptyString => [EmptyString]
  | String c s' =>
      if decide (c = sep) then EmptyString :: split sep s'
      else match split sep s' with
           | [] => [String c EmptyString]
           | piece :: pieces => String c piece :: pieces
           end
  end.

(** [s.replace(a, b)] for one-character [a] and [b]. *)
Fixpoint replace (a b : ascii) (s : string) : string :=
  match s with
  | EmptyString => EmptyString
  | String c s' => String (if decide (c = a) then b else c) (replace a b s')
  end.

(** [re.sub(pattern, "", c)] for a child [c], [clean] being the substitution
    on texts: [re.sub] refuses what is not a string (the message is that of
    CPython 3.11 and later). *)
Definition re_sub (clean : string -> string) (c : node) : result string :=
  match c with
  | Text s => ret (clean s)
  | Element _ => raise (TypeError "expected string or bytes-like object, got 'Tag'")
  end.

(** [link.split("/")[-1].replace("-", " ")] *)
Definition player_name_of (link : string) : string :=
  replace "-" " " (List.last (split "/" link) EmptyString).

(** [f"https://www.whoscored.com/{link}"] *)
Definition player_url (link : string) : string :=
  "https://www.whoscored.com/" +:+ link.

(** ** The parsed page *)

(** A [span.incident-wrapper]: the answer of [i.find("span")] ([None] when
    the wrapper has no inner span), and for that span the answer of
    [get("title")] ([None] when it has no title). *)
Definition wrapper : Type := option (option string).

Record PlayerInfo := {
  team_link : option (list node);
  nationality_span : option (list node)
}.

Record StatTable := {
  date_divs : list (option (list node));
  home_team_divs : list (option (list node));
  away_team_divs : list (option (list node));
  result_divs : list (option (list node));
  minutes_divs : list (list node);
  rating_divs : list (list node);
  match_icons : list (list wrapper)
}.

Record Page := {
  player_info_div : option PlayerInfo;
  stat_table_div : option StatTable
}.

(** ** Incident counts *)

(** [sum(l)] *)
Definition sum (l : list Z) : Z := foldl Z.add 0%Z l.

(** [1 if i.find("span").get("title") == label else 0] *)
Definition title_flag (label : string) (i : wrapper) : result Z :=
  (span <- deref i "get" ;;
   ret (if decide (span = Some label) then 1%Z else 0%Z))%res.

(** [0 if len(incident) == 0 else sum([... for i in incident])] *)
Definition count_incident (label : string) (incident : list wrapper) : result Z :=
  if decide (length incident = 0) then ret 0%Z
  else (flags <- list_comp (title_flag label) incident ;; ret (sum flags))%res.

(** ** Data frames *)

(** The values of a frame: texts, the integers of the incident counts, the
    missing value, the other values that [read_csv] infers (a float that is
    not NaN, given by the text that [to_csv] writes for it, and a boolean),
    and an element of the page put into the frame as it is. *)
Inductive cell :=
| Str (s : string)
| Int (z : Z)
| NaN
| Float (repr : string)
| Bool (b : bool)
| Tag (markup : string).

#[global] Instance cell_eq_dec : EqDecision cell.
Proof. solve_decision. Defined.

(** A row gives a value to the columns it was built with; a column it does
    not mention reads as [NaN], which is how [pd.concat] fills the columns
    that one of its arguments lacks. *)
Definition row : Type := list (string * cell).

Record DataFrame := {
  columns : list string;
  rows : list row
}.

Fixpoint lookup_cell (c : string) (r : row) : option cell :=
  match r with
  | [] => None
  | (k, v) :: r' => if decide (k = c) then Some v else lookup_cell c r'
  end.

Definition get_cell (c : string) (r : row) : cell :=
  match lookup_cell c r with
  | Some v => v
  | None => NaN
  end.

Definition schema : list string :=
  ["Name"; "Club"; "Nationality"; "Date"; "Home"; "Away"; "Result";
   "Minutes"; "Ratings"; "Yellow"; "Red"; "Goals"; "Assists"; "MOM"].

(** [pd.DataFrame(columns=cols)] *)
Definition empty_frame (cols : list string) : DataFrame :=
  {| columns := cols; rows := [] |}.

(** [pd.DataFrame({k1: l1, k2: l2, ...})]: the lists must have one length. *)
Definition frame_of_dict (d : list (string * list cell)) : result DataFrame :=
  let n := match d with
           | [] => 0
           | (_, l) :: _ => length l
           end in
  if forallb (fun kl => length (snd kl) =? n) d
  then ret {| columns := map fst d;
              rows := map (fun i => map (fun kl => (fst kl, nth i (snd kl) NaN)) d)
                          (seq 0 n) |}
  else raise (ValueError "All arrays must be of the same length").

(** [pd.concat([a, b])]: the rows of [a] then those of [b], over the columns
    of [a] followed by the columns only [b] has. The values are kept as
    they are: where pandas changes the dtype of a column, an integer becomes
    the float of the same value, which is not tracked here. *)
Definition concat_frames (a b : DataFrame) : DataFrame :=
  {| columns := columns a ++ filter (fun c => c ∉ columns a) (columns b);
     rows := rows a ++ rows b |}.

(** [unique()]: the distinct values in order of first appearance. *)
Fixpoint unique (l : list cell) : list cell :=
  match l with
  | [] => []
  | x :: l' => x :: filter (fun y => y ≠ x) (unique l')
  end.

(** [data.Name.unique()]: attribute access to a column that the frame does
    not have raises. *)
Definition Name_unique (data : DataFrame) : result (list cell) :=
  if decide ("Name" ∈ columns data)
  then ret (unique (map (get_cell "Name") (rows data)))
  else raise (AttributeError "'DataFrame' object has no attribute 'Name'").

(** ** The CSV file: what is written and what is read back *)

(** The text that [to_csv] writes for a value: a text as it is, an integer
    in decimal, nothing for the missing value, the markup of an element. *)
Definition cell_text (v : cell) : string :=
  match v with
  | Str s => s
  | Int z => pretty z
  | NaN => ""
  | Float repr => repr
  | Bool b => if b then "True" else "False"
  | Tag markup => markup
  end.

(** The texts of column [c] in the file written for [d], one per row; a row
    without a value for [c] has the missing value there. *)
Definition column_texts (c : string) (d : DataFrame) : list string :=
  map (fun r => cell_text (get_cell c r)) (rows d).

(** What [read_csv] makes of a text that it does not keep as a text. *)
Inductive value :=
| IntValue (z : Z)
| FloatValue (repr : string)
| BoolValue (b : bool)
| Missing.

Definition cell_of_value (v : value) : cell :=
  match v with
  | IntValue z => Int z
  | FloatValue repr => Float repr
  | BoolValue b => Bool b
  | Missing => NaN
  end.

(** The type inference of [read_csv] with its default arguments: from the
    texts of a column and a row number to the value that the text of that
    row is read as, [None] when the text is kept as a text. The inference
    sees the texts of the whole column and nothing else. Which texts are
    numbers, booleans or missing values is pandas' business and is left
    open: the properties below hold for every [Reader]. *)
Definition Reader : Type := list string -> nat -> option value.

Definition read_cell (rd : Reader) (texts : list string) (i : nat) (text : string) : cell :=
  match rd texts i with
  | Some v => cell_of_value v
  | None => Str text
  end.

(** [pd.read_csv(data_path)] on the file written for [d]: the same columns
    (column names are read as written, which they are when they are
    distinct and not empty), one row per row written, every cell read from
    its text. *)
Definition read_csv (rd : Reader) (d : DataFrame) : DataFrame :=
  {| columns := columns d;
     rows := imap (fun i r =>
                     map (fun c => (c, read_cell rd (column_texts c d) i
                                         (cell_text (get_cell c r))))
                         (columns d))
                  (rows d) |}.

(** ** Extraction of one player's page (the body of the [try], up to the
    construction of [temp]) *)

Record Extracted := {
  player_team : node;
  player_nationality : node;
  dates : list node;
  home_teams : list node;
  away_teams : list node;
  results : list node;
  minutes : list string;
  ratings : list string;
  yellow_cards : list Z;
  red_cards : list Z;
  man_of_the_match : list Z;
  goals : list Z;
  assists : list Z
}.

(** [x.find(tag).contents[0]] *)
Definition inner_content (found : option (list node)) : result node :=
  (children <- deref found "contents" ;; first_content children)%res.

(** A child of the page as a value of the frame. *)
Definition cell_of_node (c : node) : cell :=
  match c with
  | Text s => Str s
  | Element markup => Tag markup
  end.

Definition extract_lists (soup : Page) : result Extracted :=
  (player_info <- deref (player_info_div soup) "find" ;;
   player_team <- inner_content (team_link player_info) ;;
   player_nationality <- inner_content (nationality_span player_info) ;;
   stat_table <- deref (stat_table_div soup) "find_all" ;;
   dates <- list_comp inner_content (date_divs stat_table) ;;
   home_teams <- list_comp inner_content (home_team_divs stat_table) ;;
   away_teams <- list_comp inner_content (away_team_divs stat_table) ;;
   results <- list_comp inner_content (result_divs stat_table) ;;
   minutes <- list_comp (fun minut => c <- first_content minut ;; re_sub clean_minutes c)
                        (minutes_divs stat_table) ;;
   ratings <- list_comp (fun rating => c <- first_content rating ;; re_sub clean_rating c)
                        (rating_divs stat_table) ;;
   let incidents := match_icons stat_table in
   yellow_cards <- list_comp (count_incident "Yellow Card") incidents ;;
   red_cards <- list_comp (count_incident "Red Card") incidents ;;
   man_of_the_match <- list_comp (count_incident "Man of the match") incidents ;;
   goals <- list_comp (count_incident "Goal") incidents ;;
   assists <- list_comp (count_incident "Assist") incidents ;;
   ret {| player_team := player_team; player_nationality := player_nationality;
          dates := dates; home_teams := home_teams; away_teams := away_teams;
          results := results; minutes := minutes; ratings := ratings;
          yellow_cards := yellow_cards; red_cards := red_cards;
          man_of_the_match := man_of_the_match; goals := goals;
          assists := assists |})%res.

(** [temp = pd.DataFrame({'Name': [player_name]*n, ...})] with
    [n = len(dates)]. *)
Definition temp_frame (player_name : string) (x : Extracted) : result DataFrame :=
  let n := length (dates x) in
  frame_of_dict
    [("Name", replicate n (Str player_name));
     ("Club", replicate n (cell_of_node (player_team x)));
     ("Nationality", replicate n (cell_of_node (player_nationality x)));
     ("Date", map cell_of_node (dates x));
     ("Home", map cell_of_node (home_teams x));
     ("Away", map cell_of_node (away_teams x));
     ("Result", map cell_of_node (results x));
     ("Minutes", map Str (minutes x));
     ("Ratings", map Str (ratings x));
     ("Yellow", map Int (yellow_cards x));
     ("Red", map Int (red_cards x));
     ("Goals", map Int (goals x));
     ("Assists", map Int (assists x));
     ("MOM", map Int (man_of_the_match x))].

Definition extract (player_name : string) (soup : Page) : result DataFrame :=
  (x <- extract_lists soup ;; temp_frame player_name x)%res.

(** ** The world and the monad of the driver *)

(** What a run can see and change outside its own variables: the file at
    [data_path] (absent, or the table it was written for), the lines
    printed, and the URLs handed to the browser, oldest first. *)
Record World := {
  file : option DataFrame;
  stdout : list string;
  requests : list string
}.

(** The variables [data] and [processed_names] of [getPlayersData], and the
    world. *)
Record State := {
  data : DataFrame;
  processed_names : list cell;
  world : World
}.

(** Statements that read and write the state and may raise; what was done
    before an exception is raised stays done. *)
Definition M (A : Type) : Type := State -> result A * State.

Definition mret {A} (a : A) : M A := fun st => (inr a, st).

Definition mbind {A B} (m : M A) (k : A -> M B) : M B :=
  fun st =>
    match m st with
    | (inl e, st') => (inl e, st')
    | (inr a, st') => k a st'
    end.

(** A pure computation run as a statement. *)
Definition lift {A} (r : result A) : M A := fun st => (r, st).

(** [try: body  except Exception as e: handler e] *)
Definition try_except {A} (body : M A) (handler : exn -> M A) : M A :=
  fun st =>
    match body st with
    | (inl e, st') => handler e st'
    | (inr a, st') => (inr a, st')
    end.

Declare Scope M_scope.
Delimit Scope M_scope with M.
Notation "x <- m ;; k" := (mbind m (fun x => k))
  (at level 100, m at next level, right associativity) : M_scope.
Notation "m ;; k" := (mbind m (fun _ => k))
  (at level 100, right associativity) : M_scope.

Definition gets {A} (f : State -> A) : M A := fun st => (inr (f st), st).

Definition set_data (d : DataFrame) : M unit :=
  fun st => (inr tt, {| data := d; processed_names := processed_names st;
                        world := world st |}).

Definition set_processed_names (l : list cell) : M unit :=
  fun st => (inr tt, {| data := data st; processed_names := l;
                        world := world st |}).

Definition set_world (w : World) : M unit :=
  fun st => (inr tt, {| data := data st; processed_names := processed_names st;
                        world := w |}).

(** [print(line)] *)
Definition print (line : string) : M unit :=
  (w <- gets world ;;
   set_world {| file := file w; stdout := stdout w ++ [line];
                requests := requests w |})%M.

(** [d.to_csv(data_path, index=False)]: the file is replaced by [d]. *)
Definition to_csv (d : DataFrame) : M unit :=
  (w <- gets world ;;
   set_world {| file := Some d; stdout := stdout w; requests := requests w |})%M.

(** [for x in l: body x] *)
Fixpoint for_each {A} (l : list A) (body : A -> M unit) : M unit :=
  match l with
  | [] => mret tt
  | x :: l' => (body x ;; for_each l' body)%M
  end.

(** ** The driver *)

(** [f"While procesing {player_name} exception occured: {e}"] *)
Definition error_line (player_name : string) (e : exn) : string :=
  "While procesing " +:+ player_name +:+ " exception occured: " +:+ str_exn e.

(** Lines 79-80: [[link for club in links for link in club]], then
    [list(set(links_flat))]: the distinct links, in the order in which the
    set enumerates them. *)
Definition links_flat (links : list (list string)) : list string :=
  elements (list_to_set (concat links) : gset string).

(** Lines 82-88: [read_csv] when the file is there, else the empty frame. *)
Definition load (rd : Reader) (w : World) : result (DataFrame * list cell) :=
  match file w with
  | Some table =>
      (let data := read_csv rd table in
       processed_names <- Name_unique data ;;
       ret (data, processed_names))%res
  | None => ret (empty_frame schema, [])
  end.

Section Driver.

(** The reader of the data file. *)
Variable rd : Reader.

(** The rendering service: a browser opened on a URL, its page source
    parsed; it raises or answers with the page. *)
Variable render : string -> result Page.

(** Lines 99-104. *)
Definition driver_get (url : string) : M Page :=
  (w <- gets world ;;
   set_world {| file := file w; stdout := stdout w;
                requests := requests w ++ [url] |} ;;
   lift (render url))%M.

(** The body of the loop, lines 91-159. [player_name in processed_names]
    compares the name with every element of the list or array. *)
Definition process_link (link : string) : M unit :=
  let player_name := player_name_of link in
  (processed <- gets processed_names ;;
   if decide (Str player_name ∈ processed) then mret tt
   else
     try_except
       (soup <- driver_get (player_url link) ;;
        temp <- lift (extract player_name soup) ;;
        (* data = pd.concat([data, temp]) *)
        data0 <- gets data ;;
        set_data (concat_frames data0 temp) ;;
        (* data.to_csv(data_path, index=False) *)
        data1 <- gets data ;;
        to_csv data1 ;;
        (* processed_names = np.append(player_name, processed_names) *)
        names <- gets processed_names ;;
        set_processed_names (Str player_name :: names))
       (fun e =>
          print (error_line player_name e)))%M.

(** The loop over an explicit list of targets, from the loaded state. *)
Definition run_targets (targets : list string) (w : World) : result unit * World :=
  match load rd w with
  | inl e => (inl e, w)
  | inr (data, processed_names) =>
      let '(r, st) :=
        for_each targets process_link
          {| data := data; processed_names := processed_names; world := w |} in
      (r, world st)
  end.

(** [getPlayersData], from the unpickled [links] on. *)
Definition getPlayersData (links : list (list string)) (w : World) : result unit * World :=
  run_targets (links_flat links) w.

(** *** One iteration as a function on states

    [step] is what [process_link] is proved to do ([process_link_step]
    below): nothing when the name is among [processed_names]; otherwise the
    page is requested, and the rows are committed or the error is printed. *)

(** Lines 99-152 as one pure computation. *)
Definition attempt (link : string) : result DataFrame :=
  (soup <- render (player_url link) ;; extract (player_name_of link) soup)%res.

Definition committed (link : string) (temp : DataFrame) (st : State) : State :=
  let data1 := concat_frames (data st) temp in
  {| data := data1;
     processed_names := Str (player_name_of link) :: processed_names st;
     world := {| file := Some data1;
                 stdout := stdout (world st);
                 requests := requests (world st) ++ [player_url link] |} |}.

Definition reported (link : string) (e : exn) (st : State) : State :=
  {| data := data st;
     processed_names := processed_names st;
     world := {| file := file (world st);
                 stdout := stdout (world st) ++ [error_line (player_name_of link) e];
                 requests := requests (world st) ++ [player_url link] |} |}.

Definition step (st : State) (link : string) : State :=
  if decide (Str (player_name_of link) ∈ processed_names st) then st
  else match attempt link with
       | inr temp => committed link temp st
       | inl e => reported link e st
       end.

End Driver.

(** The state in which a statement leaves the run. *)
Definition exec {A} (m : M A) (st : State) : State := snd (m st).

(** The names in the [Name] column of a frame. *)
Definition names_of (d : DataFrame) : list cell :=
  map (get_cell "Name") (rows d).

(** [read_csv] keeps as a text every cell of the [Name] column of the file
    written for [d] that holds the text [name]. *)
Definition kept_as_text (rd : Reader) (d : DataFrame) (name : string) : Prop :=
  forall i r,
    rows d !! i = Some r -> get_cell "Name" r = Str name ->
    rd (column_texts "Name" d) i = None.

(** An order in which a run may visit the targets: [list(set(links_flat))]
    enumerates the set in an order that can differ from one process to the
    next. *)
Definition visiting_order (links : list (list string)) (targets : list string) : Prop :=
  targets ≡ₚ links_flat links.

(** Two states with the same variables and the same file: they may differ
    in what was printed and requested. *)
Definition same_store (a b : State) : Prop :=
  data a = data b /\ processed_names a = processed_names b /\
  file (world a) = file (world b).

(** ** The club list, the link file and the run from the link file *)

(** An [a] element as the scrapers read it: the answers of [get("title")]
    and [get("href")], [None] for an attribute the element does not have. *)
Record Anchor := {
  title : option string;
  href : option string
}.

(** The clubs page: the answers of
    [soup.select("div.teams-overview_teams-wrapper")], each with the answers
    of its [find_all("a", {"class": "team-wrap"})]. *)
Definition ClubsPage : Type := list (list Anchor).

(** A team page: the answer of
    [soup.find("div", {"id": "statistics-table-summary"})], with the answers
    of its [find_all("a", {"class": "player-link"})]. *)
Definition TeamPage : Type := option (list Anchor).

(** The exceptions of [getWhoScoredLinks] and of the start of
    [getPlayersData], besides those of the extraction. *)
Inductive error :=
| KeyError (key : string)
| FileNotFoundError (path : string)
| Raised (e : exn).

(** An exception of the extraction or of the loading, raised further up. *)
Definition as_error {A} (r : result A) : error + A :=
  match r with
  | inl e => inl (Raised e)
  | inr a => inr a
  end.

(** The content of the file at [path] / [players_path]: what [pickle.dump]
    wrote, a list with one inner list per club. *)
Definition LinkFile : Type := option (list (list (option string))).

(** What [getWhoScoredLinks] can change: the link file and the URLs handed
    to the browser, oldest first. *)
Record LinkWorld := {
  link_file : LinkFile;
  team_requests : list string
}.

Definition clubs_url : string := "https://www.uefa.com/uefachampionsleague/clubs/".
Definition teams_url : string := "https://www.whoscored.com/Teams/".
Definition players_path : string := "scraping/player_links.pickle".

(** [getClubs], lines 12-34, over the rendering of the clubs page. *)
Definition getClubs (render_clubs : string -> result ClubsPage) (url : string)
  : result (list (option string) * list (option string)) :=
  (soup <- render_clubs url ;;
   clubs_table <- match soup with
                  | [] => raise (IndexError "list index out of range")
                  | table :: _ => ret table
                  end ;;
   let clubs := clubs_table in
   let names := map title clubs in
   let links := map href clubs in
   ret (names, links))%res.

Section Links.

(** [TEAM_ID] of the module [team_id_dict], which is not part of the
    sources: the identifier of each club, as the f-string of line 52 renders
    it. *)
Variable TEAM_ID : gmap string string.

(** The rendering of a team page. *)
Variable render_team : string -> result TeamPage.

(** [f"{url}{id}/"] *)
Definition team_url (url id : string) : string := url +:+ id +:+ "/".

(** The loop of [getWhoScoredLinks], lines 46-61: [all_links] and the
    requests made so far are threaded through; an exception ends the loop. *)
Fixpoint collect_links (url : string) (names : list string)
  (all_links : list (list (option string))) (reqs : list string)
  : (error + list (list (option string))) * list string :=
  match names with
  | [] => (inr all_links, reqs)
  | name :: names' =>
      match TEAM_ID !! name with
      | None => (inl (KeyError name), reqs)
      | Some id =>
          let reqs' := reqs ++ [team_url url id] in
          match render_team (team_url url id) with
          | inl e => (inl (Raised e), reqs')
          | inr None => (inl (Raised (none_has_no "find_all")), reqs')
          | inr (Some players) =>
              let links := map href players in
              collect_links url names' (all_links ++ [links]) reqs'
          end
      end
  end.

(** [getWhoScoredLinks], lines 37-65. *)
Definition getWhoScoredLinks (names : list string) (url : string) (w : LinkWorld)
  : (error + unit) * LinkWorld :=
  match collect_links url names [] (team_requests w) with
  | (inl e, reqs) => (inl e, {| link_file := link_file w; team_requests := reqs |})
  | (inr all_links, reqs) =>
      (inr tt, {| link_file := Some all_links; team_requests := reqs |})
  end.

(** One club of the loop taken alone: the list it appends when nothing
    raises, the exception it raises otherwise. *)
Definition club_links (url name : string) : option (list (option string)) :=
  match TEAM_ID !! name with
  | None => None
  | Some id =>
      match render_team (team_url url id) with
      | inr (Some players) => Some (map href players)
      | _ => None
      end
  end.

Definition club_error (url name : string) : error :=
  match TEAM_ID !! name with
  | None => KeyError name
  | Some id =>
      match render_team (team_url url id) with
      | inl e => Raised e
      | _ => Raised (none_has_no "find_all")
      end
  end.

(** The team pages of the clubs that [TEAM_ID] knows, in order. *)
Definition club_requests (url : string) (names : list string) : list string :=
  omap (fun name => team_url url <$> TEAM_ID !! name) names.

End Links.

Section PickledDriver.

Variable rd : Reader.
Variable render : string -> result Page.

(** Line 93 on an element of the link file: [link.split] is outside the
    [try], and [None] has no [split]. *)
Definition process_target (link : option string) : M unit :=
  match link with
  | None => lift (raise (none_has_no "split"))
  | Some l => process_link render l
  end.

(** [getPlayersData] from its first line: the links are read from the link
    file, then the data set is loaded, then the targets are visited. *)
Definition getPlayersData_pickled (links_file : LinkFile) (w : World)
  : (error + unit) * World :=
  match links_file with
  | None => (inl (FileNotFoundError players_path), w)
  | Some links =>
      let targets := elements (list_to_set (concat links) : gset (option string)) in
      match load rd w with
      | inl e => (inl (Raised e), w)
      | inr (data, processed_names) =>
          let '(r, st) :=
            for_each targets process_target
              {| data := data; processed_names := processed_names; world := w |} in
          (as_error r, world st)
      end
  end.

End PickledDriver.

(** ** Text: what the statements about strings are written with *)

(** [sep.join(pieces)] *)
Fixpoint join (sep : ascii) (pieces : list string) : string :=
  match pieces with
  | [] => EmptyString
  | p :: ps =>
      match ps with
      | [] => p
      | _ :: _ => p +:+ String sep (join sep ps)
      end
  end.

(** The character [c] occurs in [s]. *)
Definition occurs (c : ascii) (s : string) : Prop :=
  c ∈ list_ascii_of_string s.

(** Every character of [s] is in the class [cls]. *)
Definition all_chars (cls : ascii -> bool) (s : string) : Prop :=
  Forall (fun c => cls c = true) (list_ascii_of_string s).

(** ** Pages from which the extraction succeeds *)

(** The answer of a [find] is a node with a first child. *)
Definition has_child (found : option (list node)) : Prop :=
  exists c rest, found = Some (c :: rest).

(** The first child is there and is a text. *)
Definition starts_with_text (contents : list node) : Prop :=
  exists s rest, contents = Text s :: rest.

(** The first child of the inner node of the [i]-th cell of a column of the
    match table, and the first child of the [i]-th cell itself. *)
Definition nth_inner (cells : list (option (list node))) (i : nat) : option node :=
  match cells !! i with
  | Some (Some (c :: _)) => Some c
  | _ => None
  end.

Definition nth_first (cells : list (list node)) (i : nat) : option node :=
  match cells !! i with
  | Some (c :: _) => Some c
  | _ => None
  end.

(** Every node that the extraction dereferences is there, the first child
    of every minutes and rating cell is a text, and the seven node lists of
    the match table have one length. *)
Definition extractable (soup : Page) : Prop :=
  exists info table,
    player_info_div soup = Some info /\
    has_child (team_link info) /\
    has_child (nationality_span info) /\
    stat_table_div soup = Some table /\
    Forall has_child (date_divs table) /\
    Forall has_child (home_team_divs table) /\
    Forall has_child (away_team_divs table) /\
    Forall has_child (result_divs table) /\
    Forall starts_with_text (minutes_divs table) /\
    Forall starts_with_text (rating_divs table) /\
    Forall (Forall (fun i : wrapper => i <> None)) (match_icons table) /\
    length (home_team_divs table) = length (date_divs table) /\
    length (away_team_divs table) = length (date_divs table) /\
    length (result_divs table) = length (date_divs table) /\
    length (minutes_divs table) = length (date_divs table) /\
    length (rating_divs table) = length (date_divs table) /\
    length (match_icons table) = length (date_divs table).

(** ** Frames over the schema *)

(** The columns are those of the schema, in order, and every row gives a
    value to exactly these columns. *)
Definition well_shaped (d : DataFrame) : Prop :=
  columns d = schema /\ Forall (fun r : row => map fst r = schema) (rows d).

(** The file is absent or holds a frame over the schema. *)
Definition file_well_shaped (w : World) : Prop :=
  match file w with
  | None => True
  | Some d => well_shaped d
  end.

(** ** What a target contributes to a run *)

(** The frame a target contributes when no other target has its identifier:
    none when the identifier is among [processed], none when the fetch or
    the extraction raises. *)
Definition frames_of (render : string -> result Page) (processed : list cell)
  (link : string) : list DataFrame :=
  if decide (Str (player_name_of link) ∈ processed) then []
  else match attempt render link with
       | inr temp => [temp]
       | inl _ => []
       end.

(** ** Definitions that follow the words of the specification *)

(** "The input with every character that is not ... removed". *)
Definition keep_chars (wanted : ascii -> bool) (s : string) : string :=
  string_of_list_ascii (List.filter wanted (list_ascii_of_string s)).

Definition count_periods (s : string) : nat :=
  length (List.filter is_period (list_ascii_of_string s)).

(** "The number of markers whose label exactly equals" [label]. *)
Definition count_label (label : string) (titles : list (option string)) : nat :=
  length (filter (fun t => t = Some label) titles).

(** What [title_flag] answers on a wrapper that has its inner span. *)
Definition flag_of (label : string) (t : option string) : Z :=
  if decide (t = Some label) then 1%Z else 0%Z.

(** ** Sample inputs *)

Definition sample_table : StatTable :=
  {| date_divs := [Some [Text "17-09-2024"]; Some [Text "01-10-2024"]];
     home_team_divs := [Some [Text "Atalanta"]; Some [Text "Arsenal"]];
     away_team_divs := [Some [Text "Arsenal"]; Some [Text "PSG"]];
     result_divs := [Some [Text "0 : 0"]; Some [Text "2 : 0"]];
     minutes_divs := [[Text "90'"]; [Text ""]];
     rating_divs := [[Text "7.8*"]; [Text "-"]];
     match_icons := [[Some (Some "Yellow Card"); Some (Some "Goal");
                      Some (Some "Goal"); Some (Some "UnknownLabel")];
                     []] |}.

Definition sample_info : PlayerInfo :=
  {| team_link := Some [Text "Arsenal"]; nationality_span := Some [Text "England"] |}.

Definition sample_page : Page :=
  {| player_info_div := Some sample_info; stat_table_div := Some sample_table |}.

(** A page on which the match table is not found. *)
Definition page_without_table : Page :=
  {| player_info_div := Some sample_info; stat_table_div := None |}.

(** The page of a player with no match in the table. *)
Definition page_without_matches : Page :=
  {| player_info_div := Some sample_info;
     stat_table_div :=
       Some {| date_divs := []; home_team_divs := []; away_team_divs := [];
               result_divs := []; minutes_divs := []; rating_divs := [];
               match_icons := [] |} |}.

(** A page with one match whose minutes cell starts with an element, and
    one whose date cell does. *)
Definition one_match (date minute : node) : Page :=
  {| player_info_div := Some sample_info;
     stat_table_div :=
       Some {| date_divs := [Some [date]];
               home_team_divs := [Some [Text "Atalanta"]];
               away_team_divs := [Some [Text "Arsenal"]];
               result_divs := [Some [Text "0 : 0"]];
               minutes_divs := [[minute]];
               rating_divs := [[Text "7.8"]];
               match_icons := [[]] |} |}.

Definition page_with_element_minutes : Page :=
  one_match (Text "17-09-2024") (Element "<span>90</span>").

Definition page_with_element_date : Page :=
  one_match (Element "<b>17-09-2024</b>") (Text "90").

Definition sample_render (url : string) : result Page :=
  if decide (url = player_url "/Players/2/Show/B-B") then inr page_without_table
  else if decide (url = player_url "/Players/4/Show/D-D") then inr page_without_matches
  else if decide (url = player_url "/Players/5/Show/E-E") then inl (RenderError "timeout")
  else inr sample_page.

Definition link_A : string := "/Players/1/Show/A-A".
Definition link_B : string := "/Players/2/Show/B-B".
Definition link_C : string := "/Players/3/Show/C-C".
Definition link_D : string := "/Players/4/Show/D-D".

(** Another link with the identifier of [link_D], and a link that ends in a
    slash, whose identifier is the empty text. *)
Definition link_D' : string := "/Players/44/Show/D-D".
Definition link_without_name : string := "/Players/6/Show/".

(** The frame extracted from [sample_page] for a player called [name]. *)
Definition sample_frame (name : string) : DataFrame :=
  match extract name sample_page with
  | inr temp => temp
  | inl _ => empty_frame []
  end.

(** *** The reader of the examples

    It follows the defaults of [read_csv] on the texts of the tables used
    below, which are unsigned decimal numbers, the empty text and texts that
    are no numbers: a column of unsigned integers is read as integers; a
    column of unsigned decimal numbers and empty texts as floats, an empty
    text as the missing value; in any other column an empty text is the
    missing value and the rest is kept. *)

Fixpoint dropwhile_zeros (l : list ascii) : list ascii :=
  match l with
  | [] => []
  | c :: l' => if decide (c = "0"%char) then dropwhile_zeros l' else l
  end.

Definition all_digits (s : string) : bool :=
  negb (s =? "")%string && forallb is_digit (list_ascii_of_string s).

Definition digits_value (s : string) : Z :=
  foldl (fun acc c => (10 * acc + Z.of_nat (nat_of_ascii c - 48))%Z) 0%Z
        (list_ascii_of_string s).

Definition is_decimal (s : string) : bool :=
  match split "." s with
  | [whole] => all_digits whole
  | [whole; fraction] => all_digits whole && all_digits fraction
  | _ => false
  end.

(** [repr(float(s))] for a short unsigned decimal number [s]. *)
Definition float_repr (s : string) : string :=
  match split "." s with
  | [whole; fraction] =>
      let kept := rev (dropwhile_zeros (rev (list_ascii_of_string fraction))) in
      pretty (digits_value whole) +:+ "." +:+
      match kept with
      | [] => "0"
      | _ :: _ => string_of_list_ascii kept
      end
  | _ => pretty (digits_value s) +:+ ".0"
  end.

Definition sample_reader : Reader :=
  fun texts i =>
    match texts !! i with
    | None => None
    | Some s =>
        if forallb all_digits texts then Some (IntValue (digits_value s))
        else if forallb (fun t => (t =? "")%string || is_decimal t) texts
             then Some (if (s =? "")%string then Missing else FloatValue (float_repr s))
             else if (s =? "")%string then Some Missing else None
    end.

Definition fresh_world : World :=
  {| file := None; stdout := []; requests := [] |}.

(** A file written with every column of the schema but the last. *)
Definition frame_without_MOM : DataFrame :=
  {| columns := ["Name"; "Club"; "Nationality"; "Date"; "Home"; "Away"; "Result";
                 "Minutes"; "Ratings"; "Yellow"; "Red"; "Goals"; "Assists"];
     rows := [] |}.

(** A file without the column [Name]. *)
Definition world_without_Name : World :=
  {| file := Some {| columns := ["Club"]; rows := [] |}; stdout := []; requests := [] |}.

Definition world_without_MOM : World :=
  {| file := Some frame_without_MOM; stdout := []; requests := [] |}.

(** Sample clubs: one known to [TEAM_ID] with two players, one known whose
    page lacks the table, and names that [TEAM_ID] does not know. *)
Definition sample_TEAM_ID : gmap string string :=
  {[ "Arsenal" := "13"; "Paris" := "304" ]}.

Definition sample_players : list Anchor :=
  [ {| title := None; href := Some link_A |};
    {| title := None; href := Some link_D |} ].

Definition sample_render_team (url : string) : result TeamPage :=
  if decide (url = "https://www.whoscored.com/Teams/13/")
  then inr (Some sample_players)
  else inr None.

Definition no_links : LinkWorld := {| link_file := None; team_requests := [] |}.

(** * Properties *)

(** ** The model on the sample inputs *)

Example player_name_of_ex :
  player_name_of "/Players/300713/Show/Bukayo-Saka" = "Bukayo Saka".
Proof. reflexivity. Qed.

Example player_name_of_no_slash : player_name_of "Bukayo-Saka" = "Bukayo Saka".
Proof. reflexivity. Qed.

Example extract_sample_minutes :
  map (get_cell "Minutes") (rows (sample_frame "A A")) = [Str "90"; Str ""] /\
  map (get_cell "Ratings") (rows (sample_frame "A A")) = [Str "7.8"; Str ""] /\
  map (get_cell "Goals") (rows (sample_frame "A A")) = [Int 2; Int 0].
Proof. by vm_compute. Qed.

Example extract_without_table :
  extract "B B" page_without_table = inl (none_has_no "find_all").
Proof. reflexivity. Qed.

(** Lists of different lengths are refused when [temp] is built. *)
Example extract_length_mismatch :
  extract "A A"
    {| player_info_div := Some sample_info;
       stat_table_div :=
         Some {| date_divs := [Some [Text "17-09-2024"]; Some [Text "01-10-2024"]];
                 home_team_divs := [Some [Text "Atalanta"]];
                 away_team_divs := [Some [Text "Arsenal"]; Some [Text "PSG"]];
                 result_divs := [Some [Text "0 : 0"]; Some [Text "2 : 0"]];
                 minutes_divs := [[Text "90'"]; [Text ""]];
                 rating_divs := [[Text "7.8*"]; [Text "-"]];
                 match_icons := [[]; []] |} |}
  = inl (ValueError "All arrays must be of the same length").
Proof. reflexivity. Qed.

(** An element as the first child of a minutes cell is refused by [re.sub];
    as the first child of a date cell it is put into the frame, and written
    to the file as its markup. *)
Example extract_element_minutes :
  extract "A A" page_with_element_minutes =
  inl (TypeError "expected string or bytes-like object, got 'Tag'").
Proof. reflexivity. Qed.

Example extract_element_date :
  exists temp,
    extract "A A" page_with_element_date = inr temp /\
    map (get_cell "Date") (rows temp) = [Tag "<b>17-09-2024</b>"] /\
    column_texts "Date" temp = ["<b>17-09-2024</b>"].
Proof. eexists. split; [vm_compute; reflexivity|]. by vm_compute. Qed.

(** What the reader of the examples makes of the file written for the frame
    of the sample page: the names are kept, the minutes and the ratings
    become floats and missing values, the counts integers; empty names are
    read as missing values. *)
Example read_back_sample :
  let d := read_csv sample_reader (sample_frame "A A") in
  column_texts "Minutes" (sample_frame "A A") = ["90"; ""] /\
  map (get_cell "Name") (rows d) = [Str "A A"; Str "A A"] /\
  map (get_cell "Result") (rows d) = [Str "0 : 0"; Str "2 : 0"] /\
  map (get_cell "Minutes") (rows d) = [Float "90.0"; NaN] /\
  map (get_cell "Ratings") (rows d) = [Float "7.8"; NaN] /\
  map (get_cell "Goals") (rows d) = [Int 2; Int 0] /\
  map (get_cell "Name") (rows (read_csv sample_reader (sample_frame ""))) = [NaN; NaN].
Proof. by vm_compute. Qed.

(** An incident wrapper without an inner span makes the count raise. *)
Example count_incident_without_span :
  count_incident "Goal" [Some (Some "Goal"); None] = inl (none_has_no "get").
Proof. reflexivity. Qed.

(** ** Numeric cleaning *)

Lemma re_sub_class_keep (cls wanted : ascii -> bool) (s : string) :
  (forall c, wanted c = negb (cls c)) ->
  re_sub_class cls s = keep_chars wanted s.
Proof.
  intros Hw. unfold keep_chars. induction s as [|c s IH]; simpl; [reflexivity|].
  rewrite Hw. destruct (cls c); simpl; rewrite IH; reflexivity.
Qed.

Lemma count_periods_clean_rating (s : string) :
  count_periods (clean_rating s) = count_periods s.
Proof.
  unfold count_periods, clean_rating.
  induction s as [|c s IH]; simpl; [reflexivity|].
  destruct (is_period c) eqn:Hp.
  - rewrite orb_true_r. simpl. rewrite Hp. simpl. by rewrite IH.
  - destruct (is_digit c); simpl; rewrite ?Hp; exact IH.
Qed.

(** ** Incident counts *)

Lemma foldl_Zadd (a : Z) (l : list Z) :
  foldl Z.add a l = (a + foldl Z.add 0 l)%Z.
Proof.
  revert a. induction l as [|x l IH]; intros a; simpl; [lia|].
  rewrite (IH (a + x)%Z), (IH (0 + x)%Z). lia.
Qed.

Lemma sum_cons (x : Z) (l : list Z) : sum (x :: l) = (x + sum l)%Z.
Proof. unfold sum. simpl. rewrite foldl_Zadd. lia. Qed.

Lemma list_comp_title_flag (label : string) (titles : list (option string)) :
  list_comp (title_flag label) (map Some titles) = inr (map (flag_of label) titles).
Proof.
  induction titles as [|t titles IH]; simpl; [reflexivity|].
  rewrite IH. reflexivity.
Qed.

Lemma sum_flags (label : string) (titles : list (option string)) :
  sum (map (flag_of label) titles) = Z.of_nat (count_label label titles).
Proof.
  unfold count_label. induction titles as [|t titles IH]; [reflexivity|].
  simpl map. rewrite sum_cons, IH, filter_cons. unfold flag_of.
  case_decide; simpl; lia.
Qed.

Lemma count_incident_labelled (label : string) (titles : list (option string)) :
  count_incident label (map Some titles) = inr (Z.of_nat (count_label label titles)).
Proof.
  unfold count_incident. case_decide as Hlen.
  - rewrite length_map in Hlen. apply nil_length_inv in Hlen. by subst.
  - rewrite list_comp_title_flag. simpl. by rewrite sum_flags.
Qed.

Lemma list_comp_title_flag_inv (label : string) (incident : list wrapper) (flags : list Z) :
  list_comp (title_flag label) incident = inr flags ->
  exists titles, incident = map Some titles.
Proof.
  revert flags. induction incident as [|i incident IH]; intros flags H.
  - by exists [].
  - simpl in H. destruct i as [t|]; [|discriminate]. simpl in H.
    destruct (list_comp (title_flag label) incident) as [e|fl] eqn:E; [discriminate|].
    destruct (IH fl eq_refl) as [titles ->]. by exists (t :: titles).
Qed.

Lemma count_incident_inv (label : string) (incident : list wrapper) (n : Z) :
  count_incident label incident = inr n ->
  exists titles, incident = map Some titles /\ n = Z.of_nat (count_label label titles).
Proof.
  intros H. assert (exists titles, incident = map Some titles) as [titles ->].
  { unfold count_incident in H. case_decide as Hlen.
    - apply nil_length_inv in Hlen. subst. by exists [].
    - destruct (list_comp (title_flag label) incident) as [e|fl] eqn:E; [discriminate|].
      by eapply list_comp_title_flag_inv. }
  exists titles. split; [reflexivity|].
  rewrite count_incident_labelled in H. by inversion H.
Qed.

Lemma count_label_le (label : string) (titles : list (option string)) :
  count_label label titles <= length titles.
Proof. unfold count_label. apply length_filter. Qed.

Lemma count_labels_disjoint (titles : list (option string)) :
  count_label "Yellow Card" titles + count_label "Red Card" titles +
  count_label "Man of the match" titles + count_label "Goal" titles +
  count_label "Assist" titles <= length titles.
Proof.
  unfold count_label. induction titles as [|t titles IH]; [simpl; lia|].
  rewrite !filter_cons.
  repeat case_decide; simplify_eq; simpl; lia.
Qed.

(** C6. For every group of incident markers, each with its label (the title
    of its inner span, possibly absent), the five counts are the numbers of
    markers whose label equals 'Yellow Card', 'Red Card', 'Man of the match',
    'Goal' and 'Assist'; they are non-negative; an empty group gives five
    zeros; a marker with another label counts for no category; and the
    markers Yellow Card, Goal, Goal, UnknownLabel give 1, 0, 0, 2, 0. *)
Theorem incident_aggregation (titles : list (option string)) :
  let incident := map Some titles in
  (exists yellow red mom goal assist : Z,
     count_incident "Yellow Card" incident = inr yellow /\
     count_incident "Red Card" incident = inr red /\
     count_incident "Man of the match" incident = inr mom /\
     count_incident "Goal" incident = inr goal /\
     count_incident "Assist" incident = inr assist /\
     yellow = Z.of_nat (count_label "Yellow Card" titles) /\
     red = Z.of_nat (count_label "Red Card" titles) /\
     mom = Z.of_nat (count_label "Man of the match" titles) /\
     goal = Z.of_nat (count_label "Goal" titles) /\
     assist = Z.of_nat (count_label "Assist" titles) /\
     (0 <= yellow /\ 0 <= red /\ 0 <= mom /\ 0 <= goal /\ 0 <= assist)%Z) /\
  (forall label, count_incident label [] = inr 0%Z) /\
  (forall label other,
     other <> Some label ->
     count_incident label (map Some (other :: titles)) =
     count_incident label (map Some titles)) /\
  (let markers := [Some (Some "Yellow Card"); Some (Some "Goal");
                   Some (Some "Goal"); Some (Some "UnknownLabel")] in
   count_incident "Yellow Card" markers = inr 1%Z /\
   count_incident "Red Card" markers = inr 0%Z /\
   count_incident "Man of the match" markers = inr 0%Z /\
   count_incident "Goal" markers = inr 2%Z /\
   count_incident "Assist" markers = inr 0%Z).
Proof.
  intros incident. subst incident. repeat split.
  - eexists _, _, _, _, _.
    rewrite !count_incident_labelled. repeat split; lia.
  - intros label other Hne. rewrite !count_incident_labelled.
    unfold count_label. rewrite filter_cons. by case_decide.
Qed.

(** C10. Whenever the five counts of a marker group are computed, each of
    them lies between 0 and the number of markers and their sum is at most
    the number of markers; the five labels are pairwise distinct. *)
Theorem marker_count_bound (incident : list wrapper) (yellow red mom goal assist : Z)
  (Hyellow : count_incident "Yellow Card" incident = inr yellow)
  (Hred : count_incident "Red Card" incident = inr red)
  (Hmom : count_incident "Man of the match" incident = inr mom)
  (Hgoal : count_incident "Goal" incident = inr goal)
  (Hassist : count_incident "Assist" incident = inr assist) :
  let n := Z.of_nat (length incident) in
  NoDup ["Yellow Card"; "Red Card"; "Man of the match"; "Goal"; "Assist"] /\
  (0 <= yellow <= n)%Z /\ (0 <= red <= n)%Z /\ (0 <= mom <= n)%Z /\
  (0 <= goal <= n)%Z /\ (0 <= assist <= n)%Z /\
  (yellow + red + mom + goal + assist <= n)%Z.
Proof.
  intros n. subst n.
  apply count_incident_inv in Hyellow as (titles & -> & ->).
  apply count_incident_inv in Hred as (t2 & E2 & ->).
  apply count_incident_inv in Hmom as (t3 & E3 & ->).
  apply count_incident_inv in Hgoal as (t4 & E4 & ->).
  apply count_incident_inv in Hassist as (t5 & E5 & ->).
  apply (inj (map Some)) in E2, E3, E4, E5. subst t2 t3 t4 t5.
  rewrite length_map.
  pose proof (count_labels_disjoint titles).
  pose proof (count_label_le "Yellow Card" titles).
  pose proof (count_label_le "Red Card" titles).
  pose proof (count_label_le "Man of the match" titles).
  pose proof (count_label_le "Goal" titles).
  pose proof (count_label_le "Assist" titles).
  split; [|lia].
  apply (bool_decide_unpack _). vm_compute. exact I.
Qed.

Lemma marker_count_bound_witness :
  let incident := [Some (Some "Goal"); Some (Some "Assist"); Some None; Some (Some "Goal")] in
  (0 <= 2 <= 4)%Z /\ (2 + 0 + 0 + 0 + 1 <= Z.of_nat (length incident))%Z.
Proof.
  intros incident.
  pose proof (marker_count_bound incident 0 0 0 2 1
                eq_refl eq_refl eq_refl eq_refl eq_refl) as H.
  cbv zeta in H. subst incident. simpl length in *. lia.
Defined.

(** C7, as amended. Cleaning the minutes keeps exactly the decimal digits of
    the raw text, in order; cleaning the rating keeps exactly its decimal
    digits and its periods, every period of the raw text included; the empty
    text is passed through; "90'" cleans to "90" and "7.8*" to "7.8". *)
Theorem numeric_cleaning (raw : string) :
  clean_minutes raw = keep_chars is_digit raw /\
  clean_rating raw = keep_chars (fun c => is_digit c || is_period c) raw /\
  count_periods (clean_rating raw) = count_periods raw /\
  clean_minutes "" = "" /\
  clean_rating "" = "" /\
  clean_minutes "90'" = "90" /\
  clean_rating "7.8*" = "7.8".
Proof.
  repeat split.
  - apply re_sub_class_keep. intros c. by rewrite negb_involutive.
  - apply re_sub_class_keep. intros c. by rewrite negb_involutive.
  - apply count_periods_clean_rating.
Qed.

(** C7 as stated fails: a rating text with two periods keeps both. *)
Lemma clean_rating_keeps_two_periods :
  clean_rating "1.2.3" = "1.2.3" /\
  ~ count_periods (clean_rating "1.2.3") <= 1.
Proof. split; [reflexivity|]. vm_compute. lia. Qed.

(** ** The target set *)

Lemma elem_of_links_flat (links : list (list string)) (x : string) :
  x ∈ links_flat links <-> x ∈ concat links.
Proof. unfold links_flat. by rewrite elem_of_elements, elem_of_list_to_set. Qed.

Lemma NoDup_links_flat (links : list (list string)) :
  NoDup (links_flat links).
Proof. unfold links_flat. apply NoDup_elements. Qed.

(** C9. The resolved targets are the distinct links of the inner lists:
    no link twice, a link is a target exactly when some club lists it, the
    order of clubs and of links within them does not matter, [[A,B],[B,C]]
    resolves to the set of A, B and C, and no clubs or clubs without links
    give no target. *)
Theorem target_set_resolution (links links' : list (list string))
  (Hsame : forall x, x ∈ concat links <-> x ∈ concat links') :
  NoDup (links_flat links) /\
  (forall x, x ∈ links_flat links <-> exists club, club ∈ links /\ x ∈ club) /\
  links_flat links ≡ₚ links_flat links' /\
  (forall A B C : string,
     list_to_set (links_flat [[A; B]; [B; C]]) = ({[ A; B; C ]} : gset string) /\
     (A <> B -> B <> C -> A <> C ->
      links_flat [[A; B]; [B; C]] ≡ₚ [A; B; C])) /\
  links_flat [] = [] /\
  (forall n, links_flat (replicate n []) = []).
Proof.
  split; [apply NoDup_links_flat|].
  split.
  { intros x. rewrite elem_of_links_flat, list_elem_of_In, in_concat.
    split; intros (club & H1 & H2); exists club; split;
      by apply list_elem_of_In. }
  split.
  { apply NoDup_Permutation; [apply NoDup_links_flat..|].
    intros x. by rewrite !elem_of_links_flat. }
  split.
  { intros A B C. split.
    - apply set_eq. intros x.
      rewrite elem_of_list_to_set, elem_of_links_flat. simpl.
      rewrite !elem_of_cons, !elem_of_union, !elem_of_singleton, elem_of_nil. tauto.
    - intros HAB HBC HAC. apply NoDup_Permutation; [apply NoDup_links_flat| |].
      + repeat (apply NoDup_cons; split;
                [rewrite ?elem_of_cons, ?elem_of_nil; intuition congruence|]).
        apply NoDup_nil_2.
      + intros x. rewrite elem_of_links_flat. simpl.
        rewrite !elem_of_cons, !elem_of_nil. tauto. }
  split; [reflexivity|].
  intros n. apply elem_of_nil_inv. intros x.
  rewrite elem_of_links_flat, list_elem_of_In, in_concat.
  intros (club & H1 & H2). apply list_elem_of_In, elem_of_replicate in H1 as [-> _].
  destruct H2.
Qed.

Lemma target_set_resolution_witness :
  links_flat [["/P/1/Show/A-A"; "/P/2/Show/B-B"]; ["/P/2/Show/B-B"; "/P/3/Show/C-C"]]
  ≡ₚ links_flat [["/P/3/Show/C-C"; "/P/2/Show/B-B"]; []; ["/P/1/Show/A-A"]].
Proof.
  apply (target_set_resolution
           [["/P/1/Show/A-A"; "/P/2/Show/B-B"]; ["/P/2/Show/B-B"; "/P/3/Show/C-C"]]
           [["/P/3/Show/C-C"; "/P/2/Show/B-B"]; []; ["/P/1/Show/A-A"]]).
  intros x. simpl. rewrite !elem_of_cons, !elem_of_nil. tauto.
Defined.

(** ** The driver: one iteration and the loop *)

Section DriverFacts.

Variable rd : Reader.
Variable render : string -> result Page.

Lemma process_link_step (link : string) (st : State) :
  process_link render link st = (inr tt, step render st link).
Proof.
  unfold process_link, step, attempt, mbind, gets, try_except, driver_get,
    set_world, set_data, to_csv, set_processed_names, print, lift, mret.
  simpl. case_decide; [reflexivity|].
  destruct st as [d p [f o r]]. simpl.
  destruct (render (player_url link)) as [e|soup]; simpl; [reflexivity|].
  destruct (extract (player_name_of link) soup) as [e|temp]; reflexivity.
Qed.

Lemma for_each_steps (targets : list string) (st : State) :
  for_each targets (process_link render) st = (inr tt, foldl (step render) st targets).
Proof.
  revert st. induction targets as [|t targets IH]; intros st; [reflexivity|].
  simpl. unfold mbind. rewrite process_link_step. apply IH.
Qed.

Lemma step_skip (link : string) (st : State) :
  Str (player_name_of link) ∈ processed_names st -> step render st link = st.
Proof. intros H. unfold step. by rewrite decide_True. Qed.

Lemma step_commit (link : string) (temp : DataFrame) (st : State) :
  Str (player_name_of link) ∉ processed_names st ->
  attempt render link = inr temp ->
  step render st link = committed link temp st.
Proof. intros H E. unfold step. by rewrite decide_False, E. Qed.

Lemma step_report (link : string) (e : exn) (st : State) :
  Str (player_name_of link) ∉ processed_names st ->
  attempt render link = inl e ->
  step render st link = reported link e st.
Proof. intros H E. unfold step. by rewrite decide_False, E. Qed.

Lemma same_store_refl (a : State) : same_store a a.
Proof. by repeat split. Qed.

Lemma same_store_step (a b : State) (link : string) :
  same_store a b -> same_store (step render a link) (step render b link).
Proof.
  intros (Hd & Hp & Hf). unfold step. rewrite Hp.
  case_decide; [by repeat split|].
  destruct (attempt render link) as [e|temp]; repeat split; simpl; congruence.
Qed.

Lemma same_store_steps (targets : list string) (a b : State) :
  same_store a b ->
  same_store (foldl (step render) a targets) (foldl (step render) b targets).
Proof.
  revert a b. induction targets as [|t targets IH]; intros a b H; [exact H|].
  simpl. apply IH. by apply same_store_step.
Qed.

(** Rows are only ever added at the end. *)
Lemma step_rows_prefix (st : State) (link : string) :
  exists added, rows (data (step render st link)) = rows (data st) ++ added.
Proof.
  unfold step. case_decide; [exists []; by rewrite app_nil_r|].
  destruct (attempt render link) as [e|temp]; simpl.
  - exists []. by rewrite app_nil_r.
  - by exists (rows temp).
Qed.

Lemma steps_rows_prefix (targets : list string) (st : State) :
  exists added, rows (data (foldl (step render) st targets)) = rows (data st) ++ added.
Proof.
  revert st. induction targets as [|t targets IH]; intros st; simpl.
  - exists []. by rewrite app_nil_r.
  - destruct (IH (step render st t)) as [a2 ->].
    destruct (step_rows_prefix st t) as [a1 ->].
    exists (a1 ++ a2). by rewrite app_assoc.
Qed.

(** Once the file holds the frame in memory, it does so after every
    iteration. *)
Lemma step_file_data (st : State) (link : string) :
  file (world st) = Some (data st) ->
  file (world (step render st link)) = Some (data (step render st link)).
Proof.
  intros H. unfold step. case_decide; [exact H|].
  destruct (attempt render link); simpl; [exact H|reflexivity].
Qed.

Lemma steps_file_data (targets : list string) (st : State) :
  file (world st) = Some (data st) ->
  file (world (foldl (step render) st targets)) = Some (data (foldl (step render) st targets)).
Proof.
  revert st. induction targets as [|t targets IH]; intros st H; [exact H|].
  simpl. apply IH. by apply step_file_data.
Qed.

Lemma exec_for_each (targets : list string) (st : State) :
  exec (for_each targets (process_link render)) st = foldl (step render) st targets.
Proof. unfold exec. by rewrite for_each_steps. Qed.

Lemma exec_process_link (link : string) (st : State) :
  exec (process_link render link) st = step render st link.
Proof. unfold exec. by rewrite process_link_step. Qed.

Lemma run_targets_loaded (targets : list string) (w : World)
  (d : DataFrame) (p : list cell) :
  load rd w = inr (d, p) ->
  run_targets rd render targets w =
  (inr tt, world (foldl (step render)
                    {| data := d; processed_names := p; world := w |} targets)).
Proof. intros H. unfold run_targets. by rewrite H, for_each_steps. Qed.

(** What two runs print from states with the same variables and file. *)
Lemma step_stdout (a b : State) (link : string) :
  same_store a b ->
  exists out,
    stdout (world (step render a link)) = stdout (world a) ++ out /\
    stdout (world (step render b link)) = stdout (world b) ++ out.
Proof.
  intros (Hd & Hp & Hf). unfold step. rewrite Hp. case_decide.
  - exists []. by rewrite !app_nil_r.
  - destruct (attempt render link) as [e|temp]; simpl.
    + by eexists.
    + exists []. by rewrite !app_nil_r.
Qed.

Lemma steps_stdout (targets : list string) (a b : State) :
  same_store a b ->
  exists out,
    stdout (world (foldl (step render) a targets)) = stdout (world a) ++ out /\
    stdout (world (foldl (step render) b targets)) = stdout (world b) ++ out.
Proof.
  revert a b. induction targets as [|t targets IH]; intros a b H; simpl.
  - exists []. by rewrite !app_nil_r.
  - destruct (step_stdout a b t H) as (o1 & Ea & Eb).
    destruct (IH _ _ (same_store_step a b t H)) as (o2 & -> & ->).
    exists (o1 ++ o2). by rewrite Ea, Eb, !app_assoc.
Qed.

End DriverFacts.

(** ** Failure isolation *)

(** C1. The loop never raises, whatever the rendering service and the pages
    do, and neither does [getPlayersData] once the data set is loaded. A
    target whose fetch or extraction raises leaves the data, the names and
    the file as they were and prints one line, which reads
    "While procesing", the identifier of the target, "exception occured:"
    and the message of the error; the run then goes on as if that target had
    not been in the list. A target whose fetch and extraction succeed has
    its rows in the final data and in the file, whichever other targets
    fail. For three targets of which the second fails extraction, the rows
    of the first and the third are committed and exactly one line is
    printed, with the identifier of the second and the message of its
    error. *)
Theorem failure_isolation (rd : Reader) (render : string -> result Page) :
  (forall targets st,
     exists st', for_each targets (process_link render) st = (inr tt, st')) /\
  (forall links w d p,
     load rd w = inr (d, p) -> fst (getPlayersData rd render links w) = inr tt) /\
  (forall link st e,
     Str (player_name_of link) ∉ processed_names st ->
     attempt render link = inl e ->
     let st' := exec (process_link render link) st in
     fst (process_link render link st) = inr tt /\
     data st' = data st /\
     processed_names st' = processed_names st /\
     file (world st') = file (world st) /\
     stdout (world st') =
       stdout (world st) ++
       ["While procesing " +:+ player_name_of link +:+ " exception occured: " +:+ str_exn e]) /\
  (forall name e,
     error_line name e =
       "While procesing " +:+ name +:+ " exception occured: " +:+ str_exn e) /\
  (forall msg,
     str_exn (AttributeError msg) = msg /\ str_exn (IndexError msg) = msg /\
     str_exn (ValueError msg) = msg /\ str_exn (TypeError msg) = msg /\
     str_exn (RenderError msg) = msg) /\
  (forall before link after st e,
     Str (player_name_of link)
       ∉ processed_names (exec (for_each before (process_link render)) st) ->
     attempt render link = inl e ->
     let st_with := exec (for_each (before ++ link :: after) (process_link render)) st in
     let st_without := exec (for_each (before ++ after) (process_link render)) st in
     same_store st_with st_without /\
     exists out1 out2,
       stdout (world st_without) = out1 ++ out2 /\
       stdout (world st_with) = out1 ++ [error_line (player_name_of link) e] ++ out2) /\
  (forall before link after st temp,
     Str (player_name_of link)
       ∉ processed_names (exec (for_each before (process_link render)) st) ->
     attempt render link = inr temp ->
     let st' := exec (for_each (before ++ link :: after) (process_link render)) st in
     (exists earlier later, rows (data st') = earlier ++ rows temp ++ later) /\
     file (world st') = Some (data st')) /\
  (forall t1 t2 t3 st temp1 soup2 e temp3,
     Str (player_name_of t1) ∉ processed_names st ->
     Str (player_name_of t2) ∉ processed_names st ->
     Str (player_name_of t3) ∉ processed_names st ->
     player_name_of t2 <> player_name_of t1 ->
     player_name_of t3 <> player_name_of t1 ->
     attempt render t1 = inr temp1 ->
     render (player_url t2) = inr soup2 ->
     extract (player_name_of t2) soup2 = inl e ->
     attempt render t3 = inr temp3 ->
     exists st',
       for_each [t1; t2; t3] (process_link render) st = (inr tt, st') /\
       rows (data st') = rows (data st) ++ rows temp1 ++ rows temp3 /\
       file (world st') = Some (data st') /\
       stdout (world st') =
         stdout (world st) ++
         ["While procesing " +:+ player_name_of t2 +:+ " exception occured: " +:+ str_exn e]).
Proof.
  repeat apply conj.
  - intros targets st. eexists. apply for_each_steps.
  - intros links w d p Hload. unfold getPlayersData.
    by rewrite (run_targets_loaded rd render _ w d p Hload).
  - intros link st e Hpending Hfail. simpl.
    rewrite process_link_step, exec_process_link.
    rewrite (step_report render link e st Hpending Hfail). by repeat split.
  - reflexivity.
  - by repeat split.
  - intros before link after st e. rewrite !exec_for_each, !foldl_app. simpl.
    intros Hpending Hfail.
    rewrite (step_report render link e _ Hpending Hfail).
    set (s1 := foldl (step render) st before).
    assert (same_store (reported link e s1) s1) as Hsame by by repeat split.
    split; [by apply same_store_steps|].
    destruct (steps_stdout render after _ _ Hsame) as (out2 & E1 & E2).
    exists (stdout (world s1)), out2. split; [exact E2|].
    rewrite E1. simpl. by rewrite <- app_assoc.
  - intros before link after st temp. rewrite !exec_for_each, !foldl_app. simpl.
    intros Hpending Hok.
    rewrite (step_commit render link temp _ Hpending Hok).
    set (st1 := foldl (step render) st before).
    split.
    + destruct (steps_rows_prefix render after (committed link temp st1)) as [later ->].
      exists (rows (data st1)), later. simpl. by rewrite app_assoc.
    + by apply steps_file_data.
  - intros t1 t2 t3 st temp1 soup2 e temp3 H1 H2 H3 N21 N31 A1 R2 E2 A3.
    eexists. split; [apply for_each_steps|]. simpl.
    rewrite (step_commit render t1 temp1 st H1 A1).
    assert (attempt render t2 = inl e) as A2.
    { unfold attempt. rewrite R2. exact E2. }
    rewrite (step_report render t2 e).
    2:{ simpl. rewrite not_elem_of_cons. split; [congruence|exact H2]. }
    2:{ exact A2. }
    rewrite (step_commit render t3 temp3).
    2:{ simpl. rewrite not_elem_of_cons. split; [congruence|exact H3]. }
    2:{ exact A3. }
    simpl. by rewrite <- app_assoc.
Qed.

(** ** Extraction: lengths and rows *)

Lemma list_comp_length {A B} (f : A -> result B) (l : list A) (ys : list B) :
  list_comp f l = inr ys -> length ys = length l.
Proof.
  revert ys. induction l as [|x l IH]; intros ys H; simpl in H.
  - by inversion H.
  - destruct (f x) as [e|y]; [discriminate|]. simpl in H.
    destruct (list_comp f l) as [e|ys']; [discriminate|]. simpl in H.
    inversion H. simpl. f_equal. by apply IH.
Qed.

Lemma bind_inr {A B} (m : result A) (k : A -> result B) (b : B) :
  bind m k = inr b -> exists a, m = inr a /\ k a = inr b.
Proof. destruct m as [e|a]; [discriminate|]. intros H. by exists a. Qed.

(** The lists that the extraction builds have the lengths of the node lists
    they were built from. *)
Lemma extract_lists_lengths (soup : Page) (x : Extracted) :
  extract_lists soup = inr x ->
  exists table,
    stat_table_div soup = Some table /\
    length (dates x) = length (date_divs table) /\
    length (home_teams x) = length (home_team_divs table) /\
    length (away_teams x) = length (away_team_divs table) /\
    length (results x) = length (result_divs table) /\
    length (minutes x) = length (minutes_divs table) /\
    length (ratings x) = length (rating_divs table) /\
    length (yellow_cards x) = length (match_icons table) /\
    length (red_cards x) = length (match_icons table) /\
    length (man_of_the_match x) = length (match_icons table) /\
    length (goals x) = length (match_icons table) /\
    length (assists x) = length (match_icons table).
Proof.
  unfold extract_lists. intros H.
  apply bind_inr in H as (info & _ & H).
  apply bind_inr in H as (team & _ & H).
  apply bind_inr in H as (nat & _ & H).
  apply bind_inr in H as (table & Htable & H).
  apply bind_inr in H as (l1 & H1 & H).
  apply bind_inr in H as (l2 & H2 & H).
  apply bind_inr in H as (l3 & H3 & H).
  apply bind_inr in H as (l4 & H4 & H).
  apply bind_inr in H as (l5 & H5 & H).
  apply bind_inr in H as (l6 & H6 & H).
  cbv zeta in H.
  apply bind_inr in H as (l7 & H7 & H).
  apply bind_inr in H as (l8 & H8 & H).
  apply bind_inr in H as (l9 & H9 & H).
  apply bind_inr in H as (l10 & H10 & H).
  apply bind_inr in H as (l11 & H11 & H).
  inversion H; subst x; clear H. simpl.
  exists table. split.
  { destruct (stat_table_div soup); [by inversion Htable|discriminate]. }
  repeat split; by eapply list_comp_length.
Qed.

Lemma frame_of_dict_inr (d : list (string * list cell)) (temp : DataFrame) :
  frame_of_dict d = inr temp ->
  let n := match d with
           | [] => 0
           | (_, l) :: _ => length l
           end in
  Forall (fun kl => length (snd kl) = n) d /\
  columns temp = map fst d /\
  rows temp = map (fun i => map (fun kl => (fst kl, nth i (snd kl) NaN)) d) (seq 0 n).
Proof.
  intros H n. unfold frame_of_dict in H. fold n in H.
  destruct (forallb _ d) eqn:E; [|discriminate].
  inversion H; subst temp; clear H. simpl. split; [|by split].
  apply Forall_forall. intros kl Hkl.
  rewrite forallb_forall in E. apply Nat.eqb_eq, E. by apply list_elem_of_In.
Qed.

Lemma lookup_map_seq {A} (f : nat -> A) (n i : nat) (r : A) :
  map f (seq 0 n) !! i = Some r -> i < n /\ r = f i.
Proof.
  change (map f (seq 0 n)) with (f <$> seq 0 n).
  rewrite list_lookup_fmap. intros H.
  destruct (seq 0 n !! i) as [j|] eqn:E; [|discriminate].
  apply lookup_seq in E as [-> Hlt]. simpl in H. inversion H. by split.
Qed.

Lemma nth_replicate {A} (n i : nat) (x d : A) :
  i < n -> nth i (replicate n x) d = x.
Proof.
  revert i. induction n as [|n IH]; intros i Hi; [lia|].
  destruct i; simpl; [reflexivity|]. apply IH. lia.
Qed.

(** Every row of [temp] carries the player's name. *)
Lemma temp_frame_names (name : string) (x : Extracted) (temp : DataFrame) :
  temp_frame name x = inr temp ->
  Forall (fun r => get_cell "Name" r = Str name) (rows temp).
Proof.
  intros H. apply frame_of_dict_inr in H as (_ & _ & Hrows).
  rewrite Hrows. apply Forall_forall. intros r Hr.
  apply list_elem_of_lookup in Hr as [i Hi].
  apply lookup_map_seq in Hi as [Hlt ->].
  rewrite length_replicate in Hlt.
  unfold get_cell. simpl. by apply nth_replicate.
Qed.

Lemma extract_names (name : string) (soup : Page) (temp : DataFrame) :
  extract name soup = inr temp ->
  columns temp = schema /\
  Forall (fun r => get_cell "Name" r = Str name) (rows temp).
Proof.
  unfold extract. intros H. apply bind_inr in H as (x & _ & H). split.
  - by apply frame_of_dict_inr in H as (_ & -> & _).
  - by eapply temp_frame_names.
Qed.

(** C8. When the extraction of a player succeeds, the frame [temp] has one
    row per extracted date; the lists of home teams, away teams, results,
    minutes, ratings and the five incident counts all have that length; the
    row of match [i] carries the player's name, club and nationality and the
    [i]-th element of each list; and these rows, no more and no fewer, are
    appended to the data and written to the file. *)
Theorem row_count_invariant (render : string -> result Page) (link : string)
  (st : State) (soup : Page) (temp : DataFrame)
  (Hpending : Str (player_name_of link) ∉ processed_names st)
  (Hfetch : render (player_url link) = inr soup)
  (Hextract : extract (player_name_of link) soup = inr temp) :
  exists x,
    extract_lists soup = inr x /\
    let n := length (dates x) in
    length (rows temp) = n /\
    length (home_teams x) = n /\ length (away_teams x) = n /\
    length (results x) = n /\ length (minutes x) = n /\ length (ratings x) = n /\
    length (yellow_cards x) = n /\ length (red_cards x) = n /\
    length (man_of_the_match x) = n /\ length (goals x) = n /\
    length (assists x) = n /\
    columns temp = schema /\
    (forall i r,
       rows temp !! i = Some r ->
       i < n /\
       get_cell "Name" r = Str (player_name_of link) /\
       get_cell "Club" r = cell_of_node (player_team x) /\
       get_cell "Nationality" r = cell_of_node (player_nationality x) /\
       get_cell "Date" r = nth i (map cell_of_node (dates x)) NaN /\
       get_cell "Home" r = nth i (map cell_of_node (home_teams x)) NaN /\
       get_cell "Away" r = nth i (map cell_of_node (away_teams x)) NaN /\
       get_cell "Result" r = nth i (map cell_of_node (results x)) NaN /\
       get_cell "Minutes" r = nth i (map Str (minutes x)) NaN /\
       get_cell "Ratings" r = nth i (map Str (ratings x)) NaN /\
       get_cell "Yellow" r = nth i (map Int (yellow_cards x)) NaN /\
       get_cell "Red" r = nth i (map Int (red_cards x)) NaN /\
       get_cell "Goals" r = nth i (map Int (goals x)) NaN /\
       get_cell "Assists" r = nth i (map Int (assists x)) NaN /\
       get_cell "MOM" r = nth i (map Int (man_of_the_match x)) NaN) /\
    let st' := exec (process_link render link) st in
    rows (data st') = rows (data st) ++ rows temp /\
    length (rows (data st')) = length (rows (data st)) + n /\
    file (world st') = Some (data st').
Proof.
  pose proof Hextract as H. unfold extract in H.
  apply bind_inr in H as (x & Hx & Htemp). exists x. split; [exact Hx|].
  apply frame_of_dict_inr in Htemp as (Hlen & Hcols & Hrows).
  cbv zeta in Hlen, Hrows. rewrite length_replicate in Hlen, Hrows.
  repeat (apply Forall_cons in Hlen as [? Hlen]). simpl in *.
  rewrite ?length_map in *.
  assert (length (rows temp) = length (dates x)) as Hn.
  { by rewrite Hrows, length_map, length_seq. }
  repeat (split; [done|]).
  split.
  { intros i r Hi. rewrite Hrows in Hi. apply lookup_map_seq in Hi as [Hlt ->].
    split; [exact Hlt|]. unfold get_cell. simpl.
    rewrite !nth_replicate by exact Hlt. by repeat split. }
  rewrite exec_process_link, (step_commit render link temp st Hpending).
  2:{ unfold attempt. rewrite Hfetch. exact Hextract. }
  simpl. rewrite length_app, Hn. by repeat split.
Qed.

(** ** Loading the data set *)

Lemma elem_of_unique (c : cell) (l : list cell) : c ∈ unique l <-> c ∈ l.
Proof.
  induction l as [|x l IH]; simpl; [reflexivity|].
  rewrite !elem_of_cons, list_elem_of_filter, IH.
  destruct (decide (c = x)); tauto.
Qed.

Lemma load_absent (rd : Reader) (w : World) :
  file w = None -> load rd w = inr (empty_frame schema, []).
Proof. intros H. unfold load. by rewrite H. Qed.

Lemma load_present (rd : Reader) (w : World) (table : DataFrame) :
  file w = Some table ->
  "Name" ∈ columns table ->
  load rd w = inr (read_csv rd table, unique (names_of (read_csv rd table))).
Proof.
  intros H Hname. unfold load, Name_unique. rewrite H. simpl.
  by rewrite decide_True.
Qed.

(** C4, as amended. With no file, loading never fails and gives the empty
    frame over the 14 columns of the schema and no processed name. With a
    file, the columns are not compared with the schema: loading succeeds
    whenever the file has a [Name] column, whatever its other columns, and
    gives the table read from the file, over the columns of the file, and
    its distinct names; it raises only when the [Name] column is missing, an
    [AttributeError], and then the run stops before any fetch and leaves the
    world as it was. *)
Theorem load_behaviour (rd : Reader) (w : World) :
  (file w = None ->
   load rd w = inr (empty_frame schema, []) /\
   columns (empty_frame schema) = schema /\ rows (empty_frame schema) = [] /\
   length schema = 14) /\
  (forall table,
     file w = Some table ->
     "Name" ∈ columns table ->
     load rd w = inr (read_csv rd table, unique (names_of (read_csv rd table))) /\
     columns (read_csv rd table) = columns table) /\
  (forall table,
     file w = Some table ->
     "Name" ∉ columns table ->
     exists msg,
       load rd w = inl (AttributeError msg) /\
       forall render targets,
         run_targets rd render targets w = (inl (AttributeError msg), w)).
Proof.
  repeat apply conj.
  - intros H. by rewrite load_absent.
  - intros table H Hname. split; [by apply load_present|reflexivity].
  - intros table H Hname. eexists.
    assert (load rd w = inl (AttributeError "'DataFrame' object has no attribute 'Name'")) as E.
    { unfold load, Name_unique. rewrite H. simpl. by rewrite decide_False. }
    split; [exact E|]. intros render targets. unfold run_targets. by rewrite E.
Qed.

(** C4 as stated fails: a file that lacks the column [MOM] is loaded without
    any error, and the run goes on to fetch. *)
Lemma load_accepts_missing_column :
  columns frame_without_MOM <> schema /\
  load sample_reader world_without_MOM = inr (frame_without_MOM, []) /\
  exists w',
    run_targets sample_reader sample_render ["/Players/1/Show/A-A"] world_without_MOM
    = (inr tt, w') /\
    requests w' = [player_url "/Players/1/Show/A-A"].
Proof.
  split; [discriminate|]. split; [reflexivity|].
  eexists. split; [vm_compute; reflexivity|reflexivity].
Qed.

(** ** The names processed so far *)

Section ProcessedNames.

Variable render : string -> result Page.

Lemma step_processed_mono (st : State) (link : string) (c : cell) :
  c ∈ processed_names st -> c ∈ processed_names (step render st link).
Proof.
  intros H. unfold step. case_decide; [exact H|].
  destruct (attempt render link); simpl; [exact H|]. by apply list_elem_of_further.
Qed.

Lemma steps_processed_mono (targets : list string) (st : State) (c : cell) :
  c ∈ processed_names st -> c ∈ processed_names (foldl (step render) st targets).
Proof.
  revert st. induction targets as [|t targets IH]; intros st H; [exact H|].
  simpl. by apply IH, step_processed_mono.
Qed.

(** A name is among [processed_names] when it was there at the start or
    when a target of that name was committed since. *)
Lemma processed_after (targets : list string) (st : State) (c : cell) :
  c ∈ processed_names (foldl (step render) st targets) <->
  c ∈ processed_names st \/
  exists before t after temp,
    targets = before ++ t :: after /\
    c = Str (player_name_of t) /\
    (Str (player_name_of t) ∉ processed_names (foldl (step render) st before)) /\
    attempt render t = inr temp.
Proof.
  induction targets as [|t targets IH] using rev_ind.
  - simpl. split; [by left|]. intros [H|(before & t & after & temp & E & _)]; [exact H|].
    by destruct before.
  - rewrite foldl_app. simpl. set (s := foldl (step render) st targets) in *. split.
    + intros H.
      assert (c ∈ processed_names s \/
              (c = Str (player_name_of t) /\
               (Str (player_name_of t) ∉ processed_names s) /\
               exists temp, attempt render t = inr temp)) as [Hs|(-> & Hp & temp & Ht)].
      { revert H. unfold step. case_decide as Hd; [by left|].
        destruct (attempt render t) as [e|temp]; simpl; [by left|].
        rewrite elem_of_cons. intros [->|H]; [right|by left]. eauto. }
      * apply IH in Hs as [Hs|(before & t' & after & temp & -> & Hc & Hp & Ht)]; [by left|].
        right. exists before, t', (after ++ [t]), temp.
        by rewrite <- app_assoc.
      * right. exists targets, t, [], temp. by repeat split.
    + intros [H|(before & t' & after & temp & E & -> & Hp & Ht)].
      * apply step_processed_mono, IH. by left.
      * destruct after as [|x after _] using rev_ind.
        -- apply app_inj_tail in E as [-> ->]. fold s in Hp.
           rewrite (step_commit render t' temp s Hp Ht). simpl. apply list_elem_of_here.
        -- rewrite app_comm_cons, app_assoc in E. apply app_inj_tail in E as [-> ->].
           apply step_processed_mono, IH. right. by exists before, t', after, temp.
Qed.

End ProcessedNames.

(** C5, as amended. A target is skipped exactly when its identifier is among
    [processed_names] as they stand when the target is reached: the names
    of the loaded data set and the names of the targets committed earlier in
    the same run. When no earlier target of the run has the same
    identifier, this is the decision against the names at load time. *)
Theorem skip_decision (render : string -> result Page) (targets : list string)
  (link : string) (st : State) :
  let st1 := exec (for_each targets (process_link render)) st in
  let name := Str (player_name_of link) in
  (name ∈ processed_names st1 ->
   process_link render link st1 = (inr tt, st1)) /\
  (name ∉ processed_names st1 ->
   requests (world (exec (process_link render link) st1)) =
   requests (world st1) ++ [player_url link]) /\
  (name ∈ processed_names st1 <->
   name ∈ processed_names st \/
   exists before t after temp,
     targets = before ++ t :: after /\
     player_name_of t = player_name_of link /\
     (Str (player_name_of t)
        ∉ processed_names (exec (for_each before (process_link render)) st)) /\
     attempt render t = inr temp) /\
  ((forall t, t ∈ targets -> player_name_of t <> player_name_of link) ->
   (name ∈ processed_names st1 <-> name ∈ processed_names st)).
Proof.
  intros st1 name. subst st1 name. rewrite exec_for_each.
  set (st1 := foldl (step render) st targets).
  assert (Str (player_name_of link) ∈ processed_names st1 <->
          Str (player_name_of link) ∈ processed_names st \/
          exists before t after temp,
            targets = before ++ t :: after /\
            player_name_of t = player_name_of link /\
            (Str (player_name_of t)
               ∉ processed_names (exec (for_each before (process_link render)) st)) /\
            attempt render t = inr temp) as Hchar.
  { unfold st1. rewrite processed_after. split.
    - intros [H|(before & t & after & temp & E & Hc & Hp & Ht)]; [by left|].
      right. exists before, t, after, temp. rewrite exec_for_each.
      repeat split; try done. by inversion Hc.
    - intros [H|(before & t & after & temp & E & Hc & Hp & Ht)]; [by left|].
      right. exists before, t, after, temp. rewrite exec_for_each in Hp.
      repeat split; try done. by rewrite Hc. }
  split; [|split; [|split]].
  - intros H. by rewrite process_link_step, step_skip.
  - intros H. rewrite exec_process_link. unfold step. rewrite decide_False by exact H.
    by destruct (attempt render link).
  - exact Hchar.
  - intros Hfresh. rewrite Hchar. split; [|by left].
    intros [H|(before & t & after & temp & -> & Hc & _)]; [exact H|].
    exfalso. apply (Hfresh t); [|exact Hc].
    apply elem_of_app. right. apply list_elem_of_here.
Qed.

(** C5 as stated fails: of two targets with distinct links and the same
    identifier, the second is skipped because the first was committed in the
    same run, although the identifier was not in the data set at load. *)
Lemma same_name_skipped_mid_run :
  let l1 := "/Players/1/Show/A-A" in
  let l2 := "/Players/9/Show/A-A" in
  l1 <> l2 /\
  load sample_reader fresh_world = inr (empty_frame schema, []) /\
  (Str (player_name_of l2) ∉ ([] : list cell)) /\
  sample_render (player_url l2) = inr sample_page /\
  exists w',
    run_targets sample_reader sample_render [l1; l2] fresh_world = (inr tt, w') /\
    requests w' = [player_url l1].
Proof.
  split; [discriminate|]. split; [reflexivity|].
  split; [apply not_elem_of_nil|]. split; [reflexivity|].
  eexists. split; [vm_compute; reflexivity|reflexivity].
Qed.

(** ** The file and the data in memory *)

Lemma player_url_inj (l1 l2 : string) : player_url l1 = player_url l2 -> l1 = l2.
Proof. unfold player_url. simpl. intros H. by simplify_eq. Qed.

Lemma name_in_schema : "Name" ∈ schema.
Proof. apply list_elem_of_here. Qed.

(** *** Reading the file back *)

Lemma lookup_cell_keyed (f : string -> cell) (cols : list string) (c : string) :
  c ∈ cols -> lookup_cell c (map (fun k => (k, f k)) cols) = Some (f c).
Proof.
  induction cols as [|k cols IH]; intros H; [by apply elem_of_nil in H|].
  simpl. destruct (decide (k = c)) as [->|Hne]; [reflexivity|].
  apply IH. apply elem_of_cons in H as [->|H]; [done|exact H].
Qed.

(** Row [i] of the file is read as row [i] of the frame, over the columns of
    the file, each cell from the text written for it. *)
Lemma read_csv_lookup (rd : Reader) (d : DataFrame) (i : nat) (r : row) :
  rows d !! i = Some r ->
  exists r2,
    rows (read_csv rd d) !! i = Some r2 /\
    map fst r2 = columns d /\
    forall c, c ∈ columns d ->
      get_cell c r2 = read_cell rd (column_texts c d) i (cell_text (get_cell c r)).
Proof.
  intros Hr. eexists. split.
  { simpl. rewrite list_lookup_imap, Hr. reflexivity. }
  split.
  { rewrite map_map. simpl. apply map_id. }
  intros c Hc. unfold get_cell. by rewrite lookup_cell_keyed.
Qed.

Lemma read_cell_cases (rd : Reader) (texts : list string) (i : nat) (text : string) :
  read_cell rd texts i text = Str text \/
  exists v, read_cell rd texts i text = cell_of_value v.
Proof. unfold read_cell. destruct (rd texts i) as [v|]; [right; by exists v|by left]. Qed.

Lemma read_csv_keeps_name (rd : Reader) (d : DataFrame) (name : string) :
  "Name" ∈ columns d ->
  kept_as_text rd d name ->
  Str name ∈ names_of d ->
  Str name ∈ names_of (read_csv rd d).
Proof.
  intros Hcol Hkept Hin. unfold names_of in *.
  apply list_elem_of_In, in_map_iff in Hin as (r & Hr & Hin).
  apply list_elem_of_In, list_elem_of_lookup in Hin as [i Hi].
  destruct (read_csv_lookup rd d i r Hi) as (r2 & Hr2 & _ & Hcell).
  apply list_elem_of_In, in_map_iff. exists r2. split.
  - rewrite (Hcell "Name" Hcol), Hr. unfold read_cell. by rewrite (Hkept i r Hi Hr).
  - apply list_elem_of_In. by apply list_elem_of_lookup_2 with i.
Qed.

(** A text among the names read is the text written in some row. *)
Lemma read_csv_name_written (rd : Reader) (d : DataFrame) (name : string) :
  "Name" ∈ columns d ->
  Str name ∈ names_of (read_csv rd d) ->
  name ∈ column_texts "Name" d.
Proof.
  intros Hcol Hin. unfold names_of in Hin.
  apply list_elem_of_In, in_map_iff in Hin as (r2 & Hr2 & Hin).
  apply list_elem_of_In, list_elem_of_lookup in Hin as [i Hi].
  simpl in Hi. rewrite list_lookup_imap in Hi.
  destruct (rows d !! i) as [r|] eqn:Er; [|discriminate]. simpl in Hi.
  inversion Hi; subst r2; clear Hi.
  unfold get_cell in Hr2. rewrite lookup_cell_keyed in Hr2 by exact Hcol.
  unfold read_cell in Hr2.
  destruct (rd (column_texts "Name" d) i) as [[z|x|b|]|]; try discriminate.
  inversion Hr2 as [Hname]. unfold column_texts.
  apply list_elem_of_In, in_map_iff. exists r. split; [reflexivity|].
  apply list_elem_of_In. by apply list_elem_of_lookup_2 with i.
Qed.

(** What a successful load gives. *)
Lemma load_names (rd : Reader) (w : World) (d : DataFrame) (p : list cell) :
  load rd w = inr (d, p) ->
  "Name" ∈ columns d /\
  p = unique (names_of d) /\
  ((file w = None /\ d = empty_frame schema) \/
   (exists table, file w = Some table /\ "Name" ∈ columns table /\ d = read_csv rd table)).
Proof.
  unfold load, Name_unique.
  destruct (file w) as [table|] eqn:E; simpl.
  - case_decide as Hname; simpl; [|discriminate].
    intros H. inversion H; subst d p. repeat split; [exact Hname|].
    right. by exists table.
  - intros H. inversion H; subst d p. repeat split; [apply name_in_schema|by left].
Qed.

Lemma load_same_file (rd : Reader) (w w' : World) :
  file w' = file w -> load rd w' = load rd w.
Proof. intros H. unfold load. by rewrite H. Qed.

Section Durability.

Variable render : string -> result Page.

Lemma attempt_names (link : string) (temp : DataFrame) :
  attempt render link = inr temp ->
  columns temp = schema /\
  Forall (fun r => get_cell "Name" r = Str (player_name_of link)) (rows temp).
Proof.
  unfold attempt. intros H. apply bind_inr in H as (soup & _ & H).
  by eapply extract_names.
Qed.

Lemma steps_names_mono (targets : list string) (st : State) (c : cell) :
  c ∈ names_of (data st) -> c ∈ names_of (data (foldl (step render) st targets)).
Proof.
  unfold names_of. destruct (steps_rows_prefix render targets st) as [added ->].
  rewrite map_app, elem_of_app. by left.
Qed.

Lemma steps_columns_mono (targets : list string) (st : State) (c : string) :
  c ∈ columns (data st) -> c ∈ columns (data (foldl (step render) st targets)).
Proof.
  revert st. induction targets as [|t targets IH]; intros st H; [exact H|].
  simpl. apply IH. unfold step. case_decide; [exact H|].
  destruct (attempt render t); simpl; [exact H|]. apply elem_of_app. by left.
Qed.

(** A commit of at least one row puts the name in the [Name] column. *)
Lemma committed_name (link : string) (temp : DataFrame) (st : State) :
  attempt render link = inr temp ->
  rows temp <> [] ->
  Str (player_name_of link) ∈ names_of (data (committed link temp st)).
Proof.
  intros Ht Hrows. apply attempt_names in Ht as [_ Hnames].
  unfold names_of. simpl. rewrite map_app, elem_of_app. right.
  destruct (rows temp) as [|r rs]; [done|].
  apply Forall_cons in Hnames as [<- _]. apply list_elem_of_here.
Qed.

(** A stretch of the loop either commits nothing, and then leaves the
    variables and the file as they were, or leaves the file equal to the
    data in memory. *)
Lemma steps_file_cases (targets : list string) (st : State) :
  (data (foldl (step render) st targets) = data st /\
   processed_names (foldl (step render) st targets) = processed_names st /\
   file (world (foldl (step render) st targets)) = file (world st)) \/
  file (world (foldl (step render) st targets)) =
    Some (data (foldl (step render) st targets)).
Proof.
  revert st. induction targets as [|t targets IH]; intros st; simpl; [by left|].
  destruct (decide (Str (player_name_of t) ∈ processed_names st)) as [Hd|Hd].
  - rewrite (step_skip render t st Hd). apply IH.
  - destruct (attempt render t) as [e|temp] eqn:Ea.
    + rewrite (step_report render t e st Hd Ea).
      destruct (IH (reported t e st)) as [(H1 & H2 & H3)|H]; [by left|by right].
    + rewrite (step_commit render t temp st Hd Ea). right.
      by apply steps_file_data.
Qed.

(** After the loop, the identifier of every target that can be fetched and
    extracted is among the processed names. *)
Lemma steps_success_processed (targets : list string) (st : State)
  (t : string) (temp : DataFrame) :
  t ∈ targets ->
  attempt render t = inr temp ->
  Str (player_name_of t) ∈ processed_names (foldl (step render) st targets).
Proof.
  intros Hin Ha. apply list_elem_of_split in Hin as (before & after & ->).
  rewrite foldl_app. simpl. apply steps_processed_mono.
  set (s := foldl (step render) st before).
  destruct (decide (Str (player_name_of t) ∈ processed_names s)) as [Hd|Hd].
  - by rewrite (step_skip render t s Hd).
  - rewrite (step_commit render t temp s Hd Ha). simpl. apply list_elem_of_here.
Qed.

(** When no target is committed without a row, every processed name is in
    the [Name] column of the data. *)
Lemma steps_processed_named (targets : list string) (st : State) :
  (forall t temp, t ∈ targets -> attempt render t = inr temp -> rows temp <> []) ->
  (forall c, c ∈ processed_names st -> c ∈ names_of (data st)) ->
  forall c, c ∈ processed_names (foldl (step render) st targets) ->
            c ∈ names_of (data (foldl (step render) st targets)).
Proof.
  revert st. induction targets as [|t targets IH]; intros st Hrows Hinv; [exact Hinv|].
  simpl. apply IH.
  - intros t' temp Hin. apply Hrows. by apply list_elem_of_further.
  - intros c. unfold step. case_decide as Hd; [apply Hinv|].
    destruct (attempt render t) as [e|temp] eqn:Ea; [apply Hinv|].
    simpl. rewrite elem_of_cons. intros [->|Hc].
    + apply (committed_name t temp st Ea).
      apply (Hrows t temp); [apply list_elem_of_here|exact Ea].
    + unfold names_of. simpl. rewrite map_app, elem_of_app. left. by apply Hinv.
Qed.

(** The requests of a run are for targets whose name was not processed when
    the run started. *)
Lemma steps_requests (targets : list string) (st : State) :
  exists new,
    requests (world (foldl (step render) st targets)) = requests (world st) ++ new /\
    forall u, u ∈ new ->
      exists link, link ∈ targets /\ u = player_url link /\
                   Str (player_name_of link) ∉ processed_names st.
Proof.
  revert st. induction targets as [|t targets IH]; intros st; simpl.
  - exists []. rewrite app_nil_r. split; [reflexivity|]. intros u Hu. by apply elem_of_nil in Hu.
  - destruct (IH (step render st t)) as (new & -> & Hnew).
    assert (forall u, u ∈ new -> exists link, link ∈ t :: targets /\ u = player_url link /\
                                   Str (player_name_of link) ∉ processed_names st) as Hnew'.
    { intros u Hu. destruct (Hnew u Hu) as (link & Hin & -> & Hp).
      exists link. split; [by apply list_elem_of_further|]. split; [reflexivity|].
      intros Hc. apply Hp. by apply step_processed_mono. }
    unfold step. case_decide as Hd.
    + exists new. by split.
    + exists (player_url t :: new). split.
      * destruct (attempt render t); simpl; by rewrite <- app_assoc.
      * intros u Hu. apply elem_of_cons in Hu as [->|Hu]; [|by apply Hnew'].
        exists t. split; [apply list_elem_of_here|]. by split.
Qed.

(** A target whose name is not processed, and which no earlier target of the
    list shares its name with, is requested. *)
Lemma steps_requests_pending (before after : list string) (link : string) (st : State) :
  Str (player_name_of link) ∉ processed_names st ->
  (forall t, t ∈ before -> player_name_of t <> player_name_of link) ->
  exists new1 new2,
    requests (world (foldl (step render) st (before ++ link :: after))) =
    requests (world st) ++ new1 ++ player_url link :: new2.
Proof.
  intros Hp Hfresh. rewrite foldl_app. simpl.
  destruct (steps_requests before st) as (new1 & E1 & _).
  set (s := foldl (step render) st before) in *.
  assert (Str (player_name_of link) ∉ processed_names s) as Hs.
  { unfold s. rewrite processed_after.
    intros [H|(b & t & a & temp & -> & Hc & _)]; [by apply Hp|].
    apply (Hfresh t); [|by inversion Hc].
    apply elem_of_app. right. apply list_elem_of_here. }
  destruct (steps_requests after (step render s link)) as (new2 & -> & _).
  exists new1, new2.
  assert (requests (world (step render s link)) = requests (world s) ++ [player_url link]) as ->.
  { unfold step. rewrite decide_False by exact Hs. by destruct (attempt render link). }
  rewrite E1, <- !app_assoc. reflexivity.
Qed.

(** When every target that can be fetched and extracted is among the
    processed names already, the loop commits nothing: it fetches the other
    targets, which fail again, and only prints. *)
Lemma steps_nothing_new (targets : list string) (st : State) :
  (forall t temp, t ∈ targets -> attempt render t = inr temp ->
                  Str (player_name_of t) ∈ processed_names st) ->
  data (foldl (step render) st targets) = data st /\
  processed_names (foldl (step render) st targets) = processed_names st /\
  file (world (foldl (step render) st targets)) = file (world st) /\
  exists new,
    requests (world (foldl (step render) st targets)) = requests (world st) ++ new /\
    forall u, u ∈ new ->
      exists t e, t ∈ targets /\ u = player_url t /\ attempt render t = inl e.
Proof.
  revert st. induction targets as [|t targets IH]; intros st Hall; simpl.
  { repeat split. exists []. rewrite app_nil_r. split; [reflexivity|].
    intros u Hu. by apply elem_of_nil in Hu. }
  assert (forall t' temp, t' ∈ targets -> attempt render t' = inr temp ->
                          Str (player_name_of t') ∈ processed_names st) as Hall'.
  { intros t' temp Hin. apply Hall. by apply list_elem_of_further. }
  destruct (decide (Str (player_name_of t) ∈ processed_names st)) as [Hd|Hd].
  - rewrite (step_skip render t st Hd).
    destruct (IH st Hall') as (H1 & H2 & H3 & new & Hreq & Hnew).
    repeat (split; [done|]). exists new. split; [exact Hreq|].
    intros u Hu. destruct (Hnew u Hu) as (t' & e & Hin & -> & He).
    exists t', e. split; [by apply list_elem_of_further|by split].
  - destruct (attempt render t) as [e|temp] eqn:Ea.
    2:{ exfalso. apply Hd, (Hall t temp); [apply list_elem_of_here|exact Ea]. }
    rewrite (step_report render t e st Hd Ea).
    destruct (IH (reported t e st) Hall') as (H1 & H2 & H3 & new & Hreq & Hnew).
    repeat (split; [done|]). exists (player_url t :: new). split.
    + rewrite Hreq. simpl. by rewrite <- app_assoc.
    + intros u Hu. apply elem_of_cons in Hu as [->|Hu].
      * exists t, e. split; [apply list_elem_of_here|by split].
      * destruct (Hnew u Hu) as (t' & e' & Hin & -> & He).
        exists t', e'. split; [by apply list_elem_of_further|by split].
Qed.

End Durability.

(** The file that a run leaves has a [Name] column, and the next run loads
    it: the data it had when no target was committed, otherwise what
    [read_csv] makes of the data in memory at the end. *)
Lemma load_after_run (rd : Reader) (render : string -> result Page)
  (targets : list string) (w : World) (d0 : DataFrame) (p0 : list cell) :
  load rd w = inr (d0, p0) ->
  let st1 := foldl (step render) {| data := d0; processed_names := p0; world := w |} targets in
  (data st1 = d0 /\ processed_names st1 = p0 /\ file (world st1) = file w /\
   load rd (world st1) = inr (d0, p0)) \/
  (file (world st1) = Some (data st1) /\
   "Name" ∈ columns (data st1) /\
   load rd (world st1) =
     inr (read_csv rd (data st1), unique (names_of (read_csv rd (data st1))))).
Proof.
  intros Hload st1.
  destruct (steps_file_cases render targets {| data := d0; processed_names := p0; world := w |})
    as [(H1 & H2 & H3)|H].
  - left. repeat (split; [done|]). rewrite <- Hload. by apply load_same_file.
  - right. split; [exact H|].
    assert ("Name" ∈ columns (data st1)) as Hname.
    { apply steps_columns_mono. simpl. by apply load_names in Hload as [? _]. }
    split; [exact Hname|]. by apply load_present.
Qed.

(** C2, as amended. A commit appends the player's rows to the data in
    memory and rewrites the file with all of it; from then on the file
    equals the data in memory after every iteration, and rows are only added
    after those already there. A run stopped between two targets has left
    the file untouched or equal to its data in memory, and the rows of every
    committed player are in it. The next run loads that file: every row
    written is read back, cell by cell as the text written or as the value
    that [read_csv] infers. A player committed with at least one row whose
    identifier is kept as a text by [read_csv] is among the loaded names,
    and no target with a loaded name is fetched. Every text among the
    loaded names was written in the [Name] column of the file, and a target
    whose identifier is not among the loaded names is fetched when no
    earlier target of the new run has the same identifier. *)
Theorem commit_durability (rd : Reader) (render : string -> result Page) :
  (forall link st temp,
     Str (player_name_of link) ∉ processed_names st ->
     attempt render link = inr temp ->
     let st' := exec (process_link render link) st in
     data st' = concat_frames (data st) temp /\
     rows (data st') = rows (data st) ++ rows temp /\
     file (world st') = Some (data st')) /\
  (forall targets st,
     file (world st) = Some (data st) ->
     let st' := exec (for_each targets (process_link render)) st in
     file (world st') = Some (data st') /\
     exists added, rows (data st') = rows (data st) ++ added) /\
  (forall done w d0 p0,
     load rd w = inr (d0, p0) ->
     let st0 := {| data := d0; processed_names := p0; world := w |} in
     let st1 := exec (for_each done (process_link render)) st0 in
     run_targets rd render done w = (inr tt, world st1) /\
     (file (world st1) = file w \/ file (world st1) = Some (data st1)) /\
     (exists added, rows (data st1) = rows d0 ++ added) /\
     exists d2 loaded,
       load rd (world st1) = inr (d2, loaded) /\
       loaded = unique (names_of d2) /\
       (forall d1,
          file (world st1) = Some d1 ->
          d2 = read_csv rd d1 /\
          columns d2 = columns d1 /\
          length (rows d2) = length (rows d1) /\
          forall i r c,
            rows d1 !! i = Some r -> c ∈ columns d1 ->
            exists r2,
              rows d2 !! i = Some r2 /\
              (get_cell c r2 = Str (cell_text (get_cell c r)) \/
               exists v, get_cell c r2 = cell_of_value v)) /\
       (forall name,
          Str name ∈ loaded ->
          exists d1, file (world st1) = Some d1 /\ name ∈ column_texts "Name" d1) /\
       (forall before link after temp,
          done = before ++ link :: after ->
          Str (player_name_of link)
            ∉ processed_names (exec (for_each before (process_link render)) st0) ->
          attempt render link = inr temp ->
          file (world st1) = Some (data st1) /\
          (exists earlier later, rows (data st1) = earlier ++ rows temp ++ later) /\
          (rows temp <> [] ->
           kept_as_text rd (data st1) (player_name_of link) ->
           Str (player_name_of link) ∈ loaded)) /\
       (forall render' targets',
          exists w2 new,
            run_targets rd render' targets' (world st1) = (inr tt, w2) /\
            requests w2 = requests (world st1) ++ new /\
            (forall link,
               Str (player_name_of link) ∈ loaded -> player_url link ∉ new) /\
            (forall before link after,
               targets' = before ++ link :: after ->
               Str (player_name_of link) ∉ loaded ->
               (forall t, t ∈ before -> player_name_of t <> player_name_of link) ->
               player_url link ∈ new))).
Proof.
  split; [|split].
  - intros link st temp Hp Ht. simpl.
    rewrite exec_process_link, (step_commit render link temp st Hp Ht). by repeat split.
  - intros targets st H. simpl. rewrite exec_for_each. split.
    + by apply steps_file_data.
    + apply steps_rows_prefix.
  - intros done w d0 p0 Hload st0 st1.
    assert (st1 = foldl (step render) st0 done) as Est1 by apply exec_for_each.
    clearbody st1. subst st1. set (st1 := foldl (step render) st0 done).
    split; [by apply run_targets_loaded|].
    pose proof (load_after_run rd render done w d0 p0 Hload) as Hcases.
    cbv zeta in Hcases. fold st0 st1 in Hcases.
    split. { destruct Hcases as [(_ & _ & H & _)|(H & _)]; [by left|by right]. }
    split. { apply (steps_rows_prefix render done st0). }
    assert (exists d2 loaded, load rd (world st1) = inr (d2, loaded)) as (d2 & loaded & Hload1).
    { destruct Hcases as [(_ & _ & _ & H)|(_ & _ & H)]; eauto. }
    exists d2, loaded. split; [exact Hload1|].
    destruct (load_names rd _ _ _ Hload1) as (_ & Hloaded & Hfrom).
    split; [exact Hloaded|]. split; [|split; [|split]].
    + intros d1 Hfile.
      destruct Hfrom as [[Hnone _]|(table & Htable & _ & ->)]; [congruence|].
      assert (table = d1) as -> by congruence.
      split; [reflexivity|]. split; [reflexivity|].
      split; [apply length_imap|].
      intros i r c Hr Hc.
      destruct (read_csv_lookup rd d1 i r Hr) as (r2 & Hr2 & _ & Hcell).
      exists r2. split; [exact Hr2|]. rewrite (Hcell c Hc). apply read_cell_cases.
    + intros name Hin. rewrite Hloaded, elem_of_unique in Hin.
      destruct Hfrom as [[_ ->]|(table & Htable & Hname & ->)].
      * by apply elem_of_nil in Hin.
      * exists table. split; [exact Htable|].
        exact (read_csv_name_written rd table name Hname Hin).
    + intros before link after temp -> Hp Ht.
      rewrite (exec_for_each render before st0) in Hp.
      assert (st1 = foldl (step render)
                      (committed link temp (foldl (step render) st0 before)) after) as E.
      { unfold st1. rewrite foldl_app. simpl. by rewrite (step_commit render link temp _ Hp Ht). }
      assert (file (world st1) = Some (data st1)) as Hfile.
      { rewrite E. by apply steps_file_data. }
      split; [exact Hfile|]. split.
      { rewrite E.
        destruct (steps_rows_prefix render after
                    (committed link temp (foldl (step render) st0 before))) as [later ->].
        exists (rows (data (foldl (step render) st0 before))), later.
        simpl. by rewrite app_assoc. }
      intros Hrows Hkept. rewrite Hloaded. apply elem_of_unique.
      destruct Hfrom as [[Hnone _]|(table & Htable & Hname & ->)]; [congruence|].
      assert (table = data st1) as -> by congruence.
      apply read_csv_keeps_name; [exact Hname|exact Hkept|].
      rewrite E. by apply steps_names_mono, (committed_name render).
    + intros render' targets'.
      set (t0 := {| data := d2; processed_names := loaded; world := world st1 |}).
      destruct (steps_requests render' targets' t0) as (new & Hreq & Hnew).
      exists (world (foldl (step render') t0 targets')), new.
      split; [by apply run_targets_loaded|]. split; [exact Hreq|]. split.
      * intros link Hin Hu. destruct (Hnew _ Hu) as (link' & _ & E & Hp).
        apply player_url_inj in E. subst link'. by apply Hp.
      * intros before link after -> Hp Hfresh.
        destruct (steps_requests_pending render' before after link t0 Hp Hfresh)
          as (new1 & new2 & E).
        rewrite Hreq in E. apply app_inv_head in E. subst new.
        apply elem_of_app. right. apply list_elem_of_here.
Qed.

(** C2 as stated fails. A player whose page lists no match is committed (the
    file is written, with no row for this player), and the next run fetches
    the same page again. A player whose identifier is the empty text (the
    link ends in a slash) is committed with two rows; [read_csv] reads the
    empty names as missing values, and the next run fetches the page
    again. *)
Lemma committed_player_is_fetched_again :
  (attempt sample_render link_D = inr (empty_frame schema) /\
   exists w1 w2,
     run_targets sample_reader sample_render [link_D] fresh_world = (inr tt, w1) /\
     file w1 = Some (empty_frame schema) /\
     stdout w1 = [] /\
     run_targets sample_reader sample_render [link_D] w1 = (inr tt, w2) /\
     requests w2 = [player_url link_D; player_url link_D]) /\
  (player_name_of link_without_name = "" /\
   attempt sample_render link_without_name = inr (sample_frame "") /\
   length (rows (sample_frame "")) = 2 /\
   exists w1 w2,
     run_targets sample_reader sample_render [link_without_name] fresh_world = (inr tt, w1) /\
     file w1 = Some (sample_frame "") /\
     stdout w1 = [] /\
     load sample_reader w1 = inr (read_csv sample_reader (sample_frame ""), [NaN]) /\
     run_targets sample_reader sample_render [link_without_name] w1 = (inr tt, w2) /\
     requests w2 = [player_url link_without_name; player_url link_without_name]).
Proof.
  split.
  - split; [reflexivity|].
    eexists _, _. split; [vm_compute; reflexivity|].
    split; [reflexivity|]. split; [reflexivity|].
    split; [vm_compute; reflexivity|reflexivity].
  - split; [reflexivity|]. split; [by vm_compute|]. split; [by vm_compute|].
    eexists _, _. split; [vm_compute; reflexivity|].
    split; [by vm_compute|]. split; [reflexivity|].
    split; [by vm_compute|].
    split; [vm_compute; reflexivity|reflexivity].
Qed.

(** ** Running twice *)

Lemma filter_none {A} (P : A -> Prop) `{!forall x, Decision (P x)} (l : list A) :
  (forall x, x ∈ l -> ~ P x) -> filter P l = [].
Proof.
  induction l as [|x l IH]; intros Hall; [reflexivity|].
  rewrite filter_cons, decide_False by (apply Hall, list_elem_of_here).
  apply IH. intros y Hy. by apply Hall, list_elem_of_further.
Qed.

(** C3, as amended. A second run on the same links, with the rendering
    service answering as before, may visit the targets in another order than
    the first. It fetches no target whose identifier is among the distinct
    names of the data set it loads. When every target that can be fetched
    and extracted has at least one match row, and [read_csv] keeps the
    identifiers of these targets as texts in the file that the first run
    leaves, the second run commits nothing: its data and names at the end
    are those it loaded, the file is left as it was, the run ends as the
    first did, and the only pages it requests are those of targets that
    fail again. *)
Theorem idempotent_resume (rd : Reader) (render : string -> result Page)
  (links : list (list string)) (ts1 ts2 : list string) (w : World)
  (Hts1 : visiting_order links ts1)
  (Hts2 : visiting_order links ts2) :
  let run1 := run_targets rd render ts1 w in
  let w1 := snd run1 in
  let run2 := run_targets rd render ts2 w1 in
  let w2 := snd run2 in
  (exists new,
     requests w2 = requests w1 ++ new /\
     forall d names link,
       load rd w1 = inr (d, names) ->
       Str (player_name_of link) ∈ names ->
       player_url link ∉ new) /\
  ((forall t temp, t ∈ ts1 -> attempt render t = inr temp -> rows temp <> []) ->
   (forall d1 t temp,
      file w1 = Some d1 -> t ∈ ts1 -> attempt render t = inr temp ->
      kept_as_text rd d1 (player_name_of t)) ->
   fst run2 = fst run1 /\
   file w2 = file w1 /\
   (forall d names,
      load rd w1 = inr (d, names) ->
      let st2 := exec (for_each ts2 (process_link render))
                      {| data := d; processed_names := names; world := w1 |} in
      w2 = world st2 /\ data st2 = d /\ processed_names st2 = names) /\
   exists new,
     requests w2 = requests w1 ++ new /\
     forall u, u ∈ new ->
       exists t e, t ∈ ts2 /\ u = player_url t /\ attempt render t = inl e).
Proof.
  intros run1 w1 run2 w2. subst w2 run2 w1 run1.
  unfold visiting_order in *.
  destruct (load rd w) as [e|[d0 p0]] eqn:Hload.
  { unfold run_targets. rewrite Hload. simpl. rewrite Hload. simpl. split.
    - exists []. rewrite app_nil_r. split; [reflexivity|]. congruence.
    - intros _ _. split; [reflexivity|]. split; [reflexivity|]. split; [congruence|].
      exists []. rewrite app_nil_r. split; [reflexivity|].
      intros u Hu. by apply elem_of_nil in Hu. }
  rewrite (run_targets_loaded rd render ts1 w d0 p0 Hload). simpl.
  set (st0 := {| data := d0; processed_names := p0; world := w |}).
  set (S1 := foldl (step render) st0 ts1).
  pose proof (load_after_run rd render ts1 w d0 p0 Hload) as Hcases.
  cbv zeta in Hcases. fold st0 S1 in Hcases.
  assert (exists d2 p2, load rd (world S1) = inr (d2, p2)) as (d2 & p2 & Hload1).
  { destruct Hcases as [(_ & _ & _ & H)|(_ & _ & H)]; eauto. }
  rewrite (run_targets_loaded rd render ts2 _ d2 p2 Hload1). simpl.
  set (t0 := {| data := d2; processed_names := p2; world := world S1 |}).
  split.
  - destruct (steps_requests render ts2 t0) as (new & Hreq & Hnew).
    exists new. split; [exact Hreq|].
    intros d names link Hl Hin Hu. rewrite Hload1 in Hl. inversion Hl; subst d names.
    destruct (Hnew _ Hu) as (link' & _ & E & Hp).
    apply player_url_inj in E. subst link'. by apply Hp.
  - intros Hrows Hkept.
    assert (forall t temp, t ∈ ts2 -> attempt render t = inr temp ->
                           Str (player_name_of t) ∈ processed_names t0) as Hknown.
    { intros t temp Hin Ha. simpl.
      assert (t ∈ ts1) as Hin1 by (by rewrite Hts1, <- Hts2).
      pose proof (steps_success_processed render ts1 st0 t temp Hin1 Ha) as Hp.
      fold S1 in Hp.
      destruct Hcases as [(_ & Hp0 & _ & H)|(Hfile & Hname & H)];
        rewrite Hload1 in H; inversion H; subst d2 p2.
      - by rewrite <- Hp0.
      - apply elem_of_unique.
        apply read_csv_keeps_name; [exact Hname|by apply (Hkept _ t temp)|].
        apply (steps_processed_named render ts1 st0); [exact Hrows| |exact Hp].
        intros c Hc. simpl in *. apply load_names in Hload as (_ & -> & _).
        by apply elem_of_unique. }
    destruct (steps_nothing_new render ts2 t0 Hknown) as (H1 & H2 & H3 & new & Hreq & Hnew).
    split; [reflexivity|]. split; [exact H3|]. split.
    + intros d names Hl. rewrite Hload1 in Hl. inversion Hl; subst d names.
      simpl. rewrite exec_for_each. fold t0. by repeat split.
    + by exists new.
Qed.

(** C3 as stated fails. Of two targets with the same identifier, one with no
    match and one with two, a first run that visits the one without matches
    first commits no row and skips the other; a second run that visits them
    in the other order commits the two rows. And a target whose identifier
    is the empty text is committed with its two rows by the first run and
    again by the second, [read_csv] having read the empty names as missing
    values. *)
Lemma second_run_commits_again :
  (visiting_order [[link_D; link_D']] [link_D; link_D'] /\
   visiting_order [[link_D; link_D']] [link_D'; link_D] /\
   exists w1 w2 d1 d2,
     run_targets sample_reader sample_render [link_D; link_D'] fresh_world = (inr tt, w1) /\
     file w1 = Some d1 /\ length (rows d1) = 0 /\
     run_targets sample_reader sample_render [link_D'; link_D] w1 = (inr tt, w2) /\
     file w2 = Some d2 /\ length (rows d2) = 2 /\
     requests w2 = requests w1 ++ [player_url link_D']) /\
  (visiting_order [[link_without_name]] [link_without_name] /\
   exists w1 w2 d1 d2,
     run_targets sample_reader sample_render [link_without_name] fresh_world = (inr tt, w1) /\
     file w1 = Some d1 /\ length (rows d1) = 2 /\
     run_targets sample_reader sample_render [link_without_name] w1 = (inr tt, w2) /\
     file w2 = Some d2 /\ length (rows d2) = 4 /\
     requests w2 = requests w1 ++ [player_url link_without_name]).
Proof.
  assert (forall ts : list string, NoDup ts ->
            visiting_order [ts] ts) as Hsingle.
  { intros ts Hnd. unfold visiting_order.
    apply NoDup_Permutation; [exact Hnd|apply NoDup_links_flat|].
    intros x. rewrite elem_of_links_flat. simpl. by rewrite app_nil_r. }
  assert (NoDup [link_D; link_D']) as Hnd.
  { apply (bool_decide_unpack _). vm_compute. exact I. }
  split.
  - split; [by apply Hsingle|]. split.
    { unfold visiting_order. rewrite <- (Hsingle _ Hnd). apply Permutation_swap. }
    eexists _, _, _, _. split; [vm_compute; reflexivity|].
    split; [reflexivity|]. split; [reflexivity|].
    split; [vm_compute; reflexivity|].
    split; [reflexivity|]. split; reflexivity.
  - split. { apply Hsingle, NoDup_singleton. }
    eexists _, _, _, _. split; [vm_compute; reflexivity|].
    split; [reflexivity|]. split; [reflexivity|].
    split; [vm_compute; reflexivity|].
    split; [reflexivity|]. split; reflexivity.
Qed.

(** * Instances on the sample inputs *)

Lemma failure_isolation_witness :
  exists st',
    for_each [link_A; link_B; link_C] (process_link sample_render)
      {| data := empty_frame schema; processed_names := []; world := fresh_world |}
    = (inr tt, st') /\
    length (rows (data st')) = 4 /\
    file (world st') = Some (data st') /\
    stdout (world st') =
      ["While procesing B B exception occured: 'NoneType' object has no attribute 'find_all'"].
Proof.
  destruct (failure_isolation sample_reader sample_render) as (_ & _ & _ & _ & _ & _ & _ & H).
  destruct (H link_A link_B link_C
              {| data := empty_frame schema; processed_names := []; world := fresh_world |}
              (sample_frame "A A") page_without_table (none_has_no "find_all")
              (sample_frame "C C"))
    as (st' & Hrun & Hrows & Hfile & Hout).
  - apply not_elem_of_nil.
  - apply not_elem_of_nil.
  - apply not_elem_of_nil.
  - intros Hn. vm_compute in Hn. discriminate Hn.
  - intros Hn. vm_compute in Hn. discriminate Hn.
  - vm_compute. reflexivity.
  - vm_compute. reflexivity.
  - vm_compute. reflexivity.
  - vm_compute. reflexivity.
  - exists st'. split; [exact Hrun|]. split; [rewrite Hrows; vm_compute; reflexivity|].
    split; [exact Hfile|]. rewrite Hout. vm_compute. reflexivity.
Defined.

Lemma commit_durability_witness :
  exists w1 w2 new,
    run_targets sample_reader sample_render [link_A; link_D] fresh_world = (inr tt, w1) /\
    run_targets sample_reader sample_render [link_D; link_A] w1 = (inr tt, w2) /\
    requests w2 = requests w1 ++ new /\
    (player_url link_A ∉ new) /\
    player_url link_D ∈ new.
Proof.
  destruct (commit_durability sample_reader sample_render) as (_ & _ & H).
  pose proof (H [link_A; link_D] fresh_world (empty_frame schema) [] eq_refl) as H1.
  cbv zeta in H1.
  destruct H1 as (Hrun & _ & _ & d2 & loaded & Hload & _ & _ & _ & Hnamed & Hrestart).
  destruct (Hrestart sample_render [link_D; link_A])
    as (w2 & new & Hrun2 & Hreq & Hskip & Hretry).
  eexists _, w2, new. split; [exact Hrun|]. split; [exact Hrun2|]. split; [exact Hreq|].
  split.
  - apply Hskip.
    destruct (Hnamed [] link_A [link_D] (sample_frame "A A")) as (_ & _ & Hin).
    + reflexivity.
    + apply not_elem_of_nil.
    + vm_compute. reflexivity.
    + apply Hin.
      * intros Hn. vm_compute in Hn. discriminate Hn.
      * intros i r _ _.
        assert (column_texts "Name"
                  (data (exec (for_each [link_A; link_D] (process_link sample_render))
                           {| data := empty_frame schema; processed_names := [];
                              world := fresh_world |}))
                = ["A A"; "A A"]) as -> by (vm_compute; reflexivity).
        destruct i as [|[|i]]; vm_compute; reflexivity.
  - apply (Hretry [] link_D [link_A]).
    + reflexivity.
    + assert (exists d,
                load sample_reader
                  (world (exec (for_each [link_A; link_D] (process_link sample_render))
                            {| data := empty_frame schema; processed_names := [];
                               world := fresh_world |}))
                = inr (d, [Str "A A"])) as [d Hd]
        by (vm_compute; eexists; reflexivity).
      rewrite Hd in Hload. injection Hload as _ <-.
      apply (bool_decide_unpack _). vm_compute. exact I.
    + intros t Ht. apply elem_of_nil in Ht. destruct Ht.
Defined.

Lemma idempotent_resume_witness :
  let w1 := snd (run_targets sample_reader sample_render [link_A; link_B; link_C] fresh_world) in
  file (snd (run_targets sample_reader sample_render [link_C; link_B; link_A] w1)) = file w1.
Proof.
  intros w1.
  assert (forall ts : list string,
            NoDup ts -> (forall x, x ∈ ts <-> x = link_A \/ x = link_B \/ x = link_C) ->
            visiting_order [[link_A; link_B]; [link_B; link_C]] ts) as Horder.
  { intros ts Hnd Hin. unfold visiting_order.
    apply NoDup_Permutation; [exact Hnd|apply NoDup_links_flat|].
    intros x. rewrite Hin, elem_of_links_flat. simpl.
    rewrite !elem_of_cons, !elem_of_nil. tauto. }
  pose proof (idempotent_resume sample_reader sample_render
                [[link_A; link_B]; [link_B; link_C]]
                [link_A; link_B; link_C] [link_C; link_B; link_A] fresh_world) as H.
  cbv zeta in H. fold w1 in H.
  destruct H as [_ H].
  - apply Horder.
    + apply (bool_decide_unpack _). vm_compute. exact I.
    + intros x. rewrite !elem_of_cons, elem_of_nil. tauto.
  - apply Horder.
    + apply (bool_decide_unpack _). vm_compute. exact I.
    + intros x. rewrite !elem_of_cons, elem_of_nil. tauto.
  - destruct H as (_ & Hfile & _).
    + intros t temp Hin Ha Hn.
      rewrite !elem_of_cons, elem_of_nil in Hin.
      destruct Hin as [->|[->|[->|[]]]]; vm_compute in Ha;
        first [discriminate Ha | (injection Ha as <-; discriminate Hn)].
    + intros d1 t temp Hd1 _ _ i r _ _.
      vm_compute in Hd1. injection Hd1 as <-.
      destruct i as [|[|[|[|i]]]]; vm_compute; reflexivity.
    + exact Hfile.
Defined.

Lemma load_behaviour_witness :
  load sample_reader fresh_world = inr (empty_frame schema, []) /\
  load sample_reader world_without_MOM = inr (frame_without_MOM, []) /\
  run_targets sample_reader sample_render [link_A] world_without_Name =
    (inl (AttributeError "'DataFrame' object has no attribute 'Name'"), world_without_Name).
Proof.
  split; [|split].
  - destruct (load_behaviour sample_reader fresh_world) as (H & _). by apply H.
  - destruct (load_behaviour sample_reader world_without_MOM) as (_ & H & _).
    destruct (H frame_without_MOM) as [Hl _]; [reflexivity|apply list_elem_of_here|].
    rewrite Hl. reflexivity.
  - destruct (load_behaviour sample_reader world_without_Name) as (_ & _ & H).
    destruct (H {| columns := ["Club"]; rows := [] |}) as (msg & Hload & Hrun).
    + reflexivity.
    + apply (bool_decide_unpack _). vm_compute. exact I.
    + rewrite Hrun. vm_compute in Hload. by inversion Hload.
Defined.

Lemma skip_decision_witness :
  let st0 := {| data := empty_frame schema; processed_names := []; world := fresh_world |} in
  let st1 := exec (for_each [link_A] (process_link sample_render)) st0 in
  Str (player_name_of link_C) ∈ processed_names st1 <->
  Str (player_name_of link_C) ∈ processed_names st0.
Proof.
  intros st0 st1.
  destruct (skip_decision sample_render [link_A] link_C st0) as (_ & _ & _ & H).
  apply H. intros t Ht. apply list_elem_of_singleton in Ht as ->.
  intros Hn. vm_compute in Hn. discriminate Hn.
Defined.

Lemma row_count_invariant_witness :
  exists x,
    extract_lists sample_page = inr x /\
    length (rows (sample_frame "A A")) = length (dates x) /\
    length (yellow_cards x) = length (dates x) /\
    length (dates x) = 2.
Proof.
  destruct (row_count_invariant sample_render link_A
              {| data := empty_frame schema; processed_names := []; world := fresh_world |}
              sample_page (sample_frame "A A"))
    as (x & Hx & Hrows & _ & _ & _ & _ & _ & Hyellow & _).
  - apply not_elem_of_nil.
  - reflexivity.
  - vm_compute. reflexivity.
  - exists x. split; [exact Hx|]. split; [exact Hrows|]. split; [exact Hyellow|].
    rewrite <- Hrows. reflexivity.
Defined.

(** * Further properties of the code *)

(** ** Splitting, joining and the identifier of a link *)

Lemma split_nonempty (sep : ascii) (s : string) : split sep s <> [].
Proof.
  destruct s as [|c s]; simpl; [done|].
  case_decide; [done|]. by destruct (split sep s).
Qed.

Lemma split_app (sep : ascii) (a b : string) :
  split sep (a +:+ String sep b) = split sep a ++ split sep b.
Proof.
  induction a as [|c a IH]; simpl.
  - by rewrite decide_True.
  - case_decide; [by rewrite IH|].
    rewrite IH. pose proof (split_nonempty sep a).
    by destruct (split sep a).
Qed.

Lemma split_no_sep (sep : ascii) (s : string) :
  ~ occurs sep s -> split sep s = [s].
Proof.
  unfold occurs. induction s as [|c s IH]; simpl; intros H; [reflexivity|].
  rewrite not_elem_of_cons in H. destruct H as [Hc Hs].
  rewrite decide_False by done. by rewrite IH.
Qed.

Lemma split_pieces (sep : ascii) (s : string) :
  Forall (fun piece => ~ occurs sep piece) (split sep s).
Proof.
  unfold occurs. induction s as [|c s IH]; simpl.
  - apply Forall_cons. split; [apply not_elem_of_nil|apply Forall_nil_2].
  - case_decide as Hc.
    + apply Forall_cons. split; [apply not_elem_of_nil|exact IH].
    + destruct (split sep s) as [|p ps].
      * apply Forall_cons. split; [|apply Forall_nil_2]. simpl.
        rewrite not_elem_of_cons. split; [congruence|apply not_elem_of_nil].
      * apply Forall_cons in IH as [Hp Hps]. apply Forall_cons. split; [|exact Hps].
        simpl. rewrite not_elem_of_cons. split; [congruence|exact Hp].
Qed.

Lemma join_split (sep : ascii) (s : string) : join sep (split sep s) = s.
Proof.
  induction s as [|c s IH]; [reflexivity|]. simpl split.
  pose proof (split_nonempty sep s) as Hne. case_decide as Hc.
  - subst c. destruct (split sep s) as [|p ps] eqn:E; [done|].
    change (join sep (EmptyString :: p :: ps)) with (String sep (join sep (p :: ps))).
    by rewrite IH.
  - destruct (split sep s) as [|p ps] eqn:E; [done|].
    destruct ps as [|q ps].
    + simpl in *. by rewrite IH.
    + change (join sep (String c p :: q :: ps))
        with (String c (p +:+ String sep (join sep (q :: ps)))).
      by rewrite <- IH.
Qed.

Lemma split_join (sep : ascii) (pieces : list string) :
  pieces <> [] ->
  Forall (fun piece => ~ occurs sep piece) pieces ->
  split sep (join sep pieces) = pieces.
Proof.
  induction pieces as [|p ps IH]; intros Hne Hall; [done|].
  apply Forall_cons in Hall as [Hp Hps]. destruct ps as [|q ps].
  - simpl. by apply split_no_sep.
  - change (join sep (p :: q :: ps)) with (p +:+ String sep (join sep (q :: ps))).
    rewrite split_app, split_no_sep by done. simpl. f_equal. by apply IH.
Qed.

Lemma length_split (sep : ascii) (s : string) :
  length (split sep s) = S (length (filter (fun c => c = sep) (list_ascii_of_string s))).
Proof.
  induction s as [|c s IH]; [reflexivity|]. simpl split. simpl list_ascii_of_string.
  rewrite filter_cons. pose proof (split_nonempty sep s) as Hne.
  destruct (decide (c = sep)); simpl; [by rewrite IH|].
  destruct (split sep s) as [|p ps]; [done|]. exact IH.
Qed.

(** X1. Splitting on a separator and joining with it are inverse to each
    other: the pieces of a string joined again give the string, and a
    non-empty list of pieces free of the separator, joined and split, gives
    the pieces. No piece contains the separator, and there is one piece more
    than there are separators. *)
Theorem split_join_round_trip (sep : ascii) (s : string) :
  join sep (split sep s) = s /\
  Forall (fun piece => ~ occurs sep piece) (split sep s) /\
  length (split sep s) = S (length (filter (fun c => c = sep) (list_ascii_of_string s))) /\
  (forall pieces,
     pieces <> [] ->
     Forall (fun piece => ~ occurs sep piece) pieces ->
     split sep (join sep pieces) = pieces).
Proof.
  split; [apply join_split|]. split; [apply split_pieces|].
  split; [apply length_split|]. apply split_join.
Qed.

Lemma last_app_nonempty {A} (l l' : list A) (d : A) :
  l' <> [] -> List.last (l ++ l') d = List.last l' d.
Proof.
  intros Hne. induction l as [|x l IH]; [reflexivity|].
  simpl. rewrite IH. destruct (l ++ l') eqn:E; [|reflexivity].
  apply app_eq_nil in E as [_ ?]. done.
Qed.

Lemma last_in {A} (l : list A) (d : A) : l <> [] -> List.last l d ∈ l.
Proof.
  induction l as [|x l IH]; intros Hne; [done|].
  destruct l as [|y l]; [apply list_elem_of_here|].
  apply list_elem_of_further. by apply IH.
Qed.

Lemma last_split_segment (dir seg : string) :
  ~ occurs "/" seg ->
  List.last (split "/" (dir +:+ String "/" seg)) EmptyString = seg.
Proof.
  intros H. rewrite split_app, last_app_nonempty by apply split_nonempty.
  by rewrite split_no_sep.
Qed.

Lemma occurs_replace (a b c : ascii) (s : string) :
  occurs c (replace a b s) -> (c = b /\ occurs a s) \/ (c <> a /\ occurs c s).
Proof.
  unfold occurs. induction s as [|x s IH]; simpl; intros H.
  - by apply elem_of_nil in H.
  - apply elem_of_cons in H as [H|H].
    + case_decide as Hx; subst.
      * left. split; [reflexivity|apply list_elem_of_here].
      * right. split; [done|apply list_elem_of_here].
    + destruct (IH H) as [[? ?]|[? ?]]; [left|right]; split; try done;
        by apply list_elem_of_further.
Qed.

Lemma length_replace (a b : ascii) (s : string) :
  String.length (replace a b s) = String.length s.
Proof. induction s as [|x s IH]; simpl; [reflexivity|]. by rewrite IH. Qed.

Lemma length_join_split_last (sep : ascii) (s : string) :
  String.length (List.last (split sep s) EmptyString) <= String.length s.
Proof.
  induction s as [|c s IH]; simpl; [lia|].
  pose proof (split_nonempty sep s) as Hne. case_decide.
  - destruct (split sep s) as [|p ps]; [done|]. simpl in *. lia.
  - destruct (split sep s) as [|p ps]; [done|].
    destruct ps as [|q ps]; simpl in *; lia.
Qed.

(** X2. The identifier of a link contains neither a slash nor a hyphen, and
    it is never longer than the link. *)
Theorem player_name_alphabet (link : string) :
  ~ occurs "/" (player_name_of link) /\
  ~ occurs "-" (player_name_of link) /\
  String.length (player_name_of link) <= String.length link.
Proof.
  unfold player_name_of.
  assert (~ occurs "/" (List.last (split "/" link) EmptyString)) as Hlast.
  { pose proof (split_pieces "/" link) as Hall. rewrite Forall_forall in Hall.
    apply Hall, last_in, split_nonempty. }
  split; [|split].
  - intros H. apply occurs_replace in H as [[H _]|[_ H]]; [discriminate|done].
  - intros H. apply occurs_replace in H as [[H _]|[H _]]; [discriminate|done].
  - rewrite length_replace. apply length_join_split_last.
Qed.

(** X3. The identifier depends on the last path segment only: for a segment
    without a slash, whatever precedes it in the link, the identifier is the
    segment with its hyphens turned into spaces, the same as for the segment
    alone; a link that ends in a slash has the empty identifier. *)
Theorem player_name_last_segment (dir seg : string)
  (Hseg : ~ occurs "/" seg) :
  player_name_of (dir +:+ String "/" seg) = replace "-" " " seg /\
  player_name_of seg = replace "-" " " seg /\
  player_name_of (dir +:+ String "/" seg) = player_name_of seg /\
  player_name_of (dir +:+ "/") = EmptyString.
Proof.
  unfold player_name_of.
  assert (List.last (split "/" seg) EmptyString = seg) as Hs.
  { by rewrite split_no_sep. }
  rewrite last_split_segment, Hs by exact Hseg.
  repeat split.
  change (dir +:+ "/") with (dir +:+ String "/" EmptyString).
  rewrite last_split_segment; [reflexivity|]. apply not_elem_of_nil.
Qed.

Lemma player_name_last_segment_witness :
  player_name_of ("/Players/300713/Show" +:+ String "/" "Bukayo-Saka") = "Bukayo Saka" /\
  player_name_of ("/Players/77/History" +:+ String "/" "Bukayo-Saka")
  = player_name_of "Bukayo-Saka".
Proof.
  assert (~ occurs "/" "Bukayo-Saka") as H.
  { unfold occurs. apply (bool_decide_unpack _). vm_compute. exact I. }
  pose proof (player_name_last_segment "/Players/300713/Show" "Bukayo-Saka" H) as (H1 & _).
  pose proof (player_name_last_segment "/Players/77/History" "Bukayo-Saka" H) as (_ & _ & H2 & _).
  split; [exact H1|exact H2].
Defined.

(** ** Cleaning *)

Lemma re_sub_class_all (cls : ascii -> bool) (s : string) :
  all_chars (fun c => negb (cls c)) (re_sub_class cls s).
Proof.
  unfold all_chars. induction s as [|c s IH]; simpl; [apply Forall_nil_2|].
  destruct (cls c) eqn:E; [exact IH|]. simpl. apply Forall_cons. by rewrite E.
Qed.

Lemma re_sub_class_fixed (cls : ascii -> bool) (s : string) :
  re_sub_class cls s = s <-> all_chars (fun c => negb (cls c)) s.
Proof.
  split.
  - intros <-. apply re_sub_class_all.
  - unfold all_chars. induction s as [|c s IH]; simpl; intros H; [reflexivity|].
    apply Forall_cons in H as [Hc Hs]. apply negb_true_iff in Hc. rewrite Hc.
    by rewrite IH.
Qed.

Lemma re_sub_class_twice (cls cls' : ascii -> bool) (s : string) :
  (forall c, cls' c = true -> cls c = true) ->
  re_sub_class cls (re_sub_class cls' s) = re_sub_class cls s.
Proof.
  intros Hsub. induction s as [|c s IH]; simpl; [reflexivity|].
  destruct (cls' c) eqn:E'.
  - by rewrite (Hsub c E').
  - simpl. by rewrite IH.
Qed.

Lemma length_re_sub_class (cls : ascii -> bool) (s : string) :
  String.length (re_sub_class cls s) <= String.length s.
Proof. induction s as [|c s IH]; simpl; [lia|]. destruct (cls c); simpl; lia. Qed.

(** X4. Cleaning leaves exactly the texts made of digits (for the rating:
    of digits and periods) unchanged; cleaning twice is cleaning once;
    cleaning as minutes what was cleaned as a rating is cleaning as minutes;
    and the cleaned text is never longer than the raw one. *)
Theorem cleaning_fixed_points (raw : string) :
  (clean_minutes raw = raw <-> all_chars is_digit raw) /\
  (clean_rating raw = raw <-> all_chars (fun c => is_digit c || is_period c) raw) /\
  clean_minutes (clean_minutes raw) = clean_minutes raw /\
  clean_rating (clean_rating raw) = clean_rating raw /\
  clean_minutes (clean_rating raw) = clean_minutes raw /\
  String.length (clean_minutes raw) <= String.length (clean_rating raw) /\
  String.length (clean_rating raw) <= String.length raw.
Proof.
  assert (forall cls s, all_chars (fun c => negb (negb (cls c))) s <-> all_chars cls s) as Hnn.
  { intros cls s. unfold all_chars. apply Forall_proper; [|reflexivity].
    intros c. by rewrite negb_involutive. }
  unfold clean_minutes, clean_rating.
  split; [by rewrite re_sub_class_fixed, Hnn|].
  split; [by rewrite re_sub_class_fixed, (Hnn (fun c => is_digit c || is_period c))|].
  split; [by apply re_sub_class_twice|].
  split; [by apply re_sub_class_twice|].
  assert (re_sub_class (fun c => negb (is_digit c))
            (re_sub_class (fun c => negb (is_digit c || is_period c)) raw) =
          re_sub_class (fun c => negb (is_digit c)) raw) as E.
  { apply re_sub_class_twice. intros c. destruct (is_digit c); simpl; [done|]. done. }
  split; [exact E|]. split; [|apply length_re_sub_class].
  rewrite <- E. apply length_re_sub_class.
Qed.

(** ** When the extraction succeeds *)

Lemma list_comp_Forall2 {A B} (f : A -> result B) (l : list A) (ys : list B) :
  list_comp f l = inr ys <-> Forall2 (fun x y => f x = inr y) l ys.
Proof.
  revert ys. induction l as [|x l IH]; intros ys; simpl.
  - split.
    + intros H. inversion H. apply Forall2_nil_2.
    + intros H. apply Forall2_nil_inv_l in H. by subst.
  - split.
    + intros H. apply bind_inr in H as (y & Hy & H).
      apply bind_inr in H as (ys' & Hys & H). inversion H; subst ys.
      apply Forall2_cons; split; [exact Hy|]. by apply IH.
    + intros H. apply Forall2_cons_inv_l in H as (y & ys' & Hy & Hys & ->).
      rewrite Hy. simpl. apply IH in Hys. by rewrite Hys.
Qed.

Lemma list_comp_succeeds {A B} (f : A -> result B) (l : list A) :
  (exists ys, list_comp f l = inr ys) <-> Forall (fun x => exists y, f x = inr y) l.
Proof.
  split.
  - intros [ys H]. apply list_comp_Forall2 in H.
    induction H as [|x y l ys Hxy _ IH]; [apply Forall_nil_2|].
    apply Forall_cons. split; [by exists y|exact IH].
  - induction 1 as [|x l [y Hy] _ [ys IH]]; [by exists []|].
    exists (y :: ys). simpl. by rewrite Hy, IH.
Qed.

Lemma inner_content_succeeds (found : option (list node)) :
  (exists c, inner_content found = inr c) <-> has_child found.
Proof.
  unfold inner_content, has_child. split.
  - intros [t H]. destruct found as [[|c rest]|]; try discriminate. by exists c, rest.
  - intros (c & rest & ->). by exists c.
Qed.

(** Cleaning the first child succeeds exactly when there is a first child
    and it is a text; the result is the cleaned text. *)
Lemma cleaned_content_inv (clean : string -> string) (contents : list node) (t : string) :
  bind (first_content contents) (fun c => re_sub clean c) = inr t <->
  exists raw rest, contents = Text raw :: rest /\ t = clean raw.
Proof.
  split.
  - intros H. destruct contents as [|[raw|markup] rest]; try discriminate.
    simpl in H. inversion H. by exists raw, rest.
  - intros (raw & rest & -> & ->). reflexivity.
Qed.

Lemma cleaned_content_succeeds (clean : string -> string) (contents : list node) :
  (exists t, bind (first_content contents) (fun c => re_sub clean c) = inr t) <->
  starts_with_text contents.
Proof.
  unfold starts_with_text. split.
  - intros [t H]. apply cleaned_content_inv in H as (raw & rest & -> & _). by exists raw, rest.
  - intros (raw & rest & ->). by eexists.
Qed.

Lemma count_incident_succeeds (label : string) (incident : list wrapper) :
  (exists n, count_incident label incident = inr n) <->
  Forall (fun i : wrapper => i <> None) incident.
Proof.
  split.
  - intros [n H]. apply count_incident_inv in H as (titles & -> & _).
    apply Forall_forall. intros i Hi.
    apply list_elem_of_In, in_map_iff in Hi as (t & <- & _). done.
  - intros H. assert (exists titles, incident = map Some titles) as [titles ->].
    { induction H as [|i incident Hi _ [titles ->]]; [by exists []|].
      destruct i as [t|]; [|done]. by exists (t :: titles). }
    rewrite count_incident_labelled. by eexists.
Qed.

Lemma frame_of_dict_succeeds (d : list (string * list cell)) :
  (forall kl, kl ∈ d ->
     length (snd kl) = match d with
                       | [] => 0
                       | (_, l) :: _ => length l
                       end) ->
  exists temp, frame_of_dict d = inr temp.
Proof.
  intros H. unfold frame_of_dict.
  set (n := match d with [] => 0 | (_, l) :: _ => length l end) in *.
  assert (forallb (fun kl => length (snd kl) =? n) d = true) as ->.
  { apply forallb_forall. intros kl Hin. apply Nat.eqb_eq, H. by apply list_elem_of_In. }
  by eexists.
Qed.

Lemma temp_frame_succeeds (name : string) (x : Extracted) :
  length (home_teams x) = length (dates x) ->
  length (away_teams x) = length (dates x) ->
  length (results x) = length (dates x) ->
  length (minutes x) = length (dates x) ->
  length (ratings x) = length (dates x) ->
  length (yellow_cards x) = length (dates x) ->
  length (red_cards x) = length (dates x) ->
  length (man_of_the_match x) = length (dates x) ->
  length (goals x) = length (dates x) ->
  length (assists x) = length (dates x) ->
  exists temp, temp_frame name x = inr temp.
Proof.
  intros. unfold temp_frame. apply frame_of_dict_succeeds.
  intros kl Hin. cbn [length]. rewrite length_replicate.
  repeat (apply elem_of_cons in Hin as [->|Hin];
          [cbn [snd]; rewrite ?length_replicate, ?length_map; congruence|]).
  by apply elem_of_nil in Hin.
Qed.

Lemma Forall_iff_exists {A} (P Q : A -> Prop) (l : list A) :
  (forall x, P x <-> Q x) -> Forall P l <-> Forall Q l.
Proof. intros H. apply Forall_proper; [exact H|reflexivity]. Qed.

(** X5. The extraction of a page succeeds exactly when the page is
    extractable: the profile region with a club link and a nationality that
    have a first child, the match table, an inner node with a first child in
    every date, home, away and result cell, a first child that is a text in
    every minutes and rating cell, an inner span in every incident wrapper,
    and as many home, away, result, minutes, rating and incident cells as
    dates. The first child of a date, home, away or result cell, of the club
    link and of the nationality may be a text or an element. In every other
    case the extraction raises. *)
Theorem extract_succeeds_iff (player_name : string) (soup : Page) :
  (exists temp, extract player_name soup = inr temp) <-> extractable soup.
Proof.
  split.
  - intros [temp H]. unfold extract in H. apply bind_inr in H as (x & Hx & Htemp).
    unfold extract_lists in Hx.
    apply bind_inr in Hx as (info & Hinfo & Hx).
    apply bind_inr in Hx as (team & Hteam & Hx).
    apply bind_inr in Hx as (nat & Hnat & Hx).
    apply bind_inr in Hx as (table & Htable & Hx).
    apply bind_inr in Hx as (l1 & H1 & Hx).
    apply bind_inr in Hx as (l2 & H2 & Hx).
    apply bind_inr in Hx as (l3 & H3 & Hx).
    apply bind_inr in Hx as (l4 & H4 & Hx).
    apply bind_inr in Hx as (l5 & H5 & Hx).
    apply bind_inr in Hx as (l6 & H6 & Hx).
    cbv zeta in Hx.
    apply bind_inr in Hx as (l7 & H7 & Hx).
    apply bind_inr in Hx as (l8 & H8 & Hx).
    apply bind_inr in Hx as (l9 & H9 & Hx).
    apply bind_inr in Hx as (l10 & H10 & Hx).
    apply bind_inr in Hx as (l11 & H11 & Hx).
    inversion Hx; subst x; clear Hx.
    apply frame_of_dict_inr in Htemp as (Hlen & _ & _).
    cbv zeta in Hlen. rewrite length_replicate in Hlen.
    repeat (apply Forall_cons in Hlen as [? Hlen]). simpl in *.
    rewrite ?length_map in *.
    exists info, table.
    split. { by destruct (player_info_div soup); inversion Hinfo. }
    split. { apply inner_content_succeeds. by exists team. }
    split. { apply inner_content_succeeds. by exists nat. }
    split. { by destruct (stat_table_div soup); inversion Htable. }
    split. { apply (Forall_iff_exists _ _ _ inner_content_succeeds), list_comp_succeeds. eauto. }
    split. { apply (Forall_iff_exists _ _ _ inner_content_succeeds), list_comp_succeeds. eauto. }
    split. { apply (Forall_iff_exists _ _ _ inner_content_succeeds), list_comp_succeeds. eauto. }
    split. { apply (Forall_iff_exists _ _ _ inner_content_succeeds), list_comp_succeeds. eauto. }
    split. { apply (Forall_iff_exists _ _ _ (cleaned_content_succeeds clean_minutes)),
               list_comp_succeeds. eauto. }
    split. { apply (Forall_iff_exists _ _ _ (cleaned_content_succeeds clean_rating)),
               list_comp_succeeds. eauto. }
    split. { apply (Forall_iff_exists _ _ _ (count_incident_succeeds "Yellow Card")),
               list_comp_succeeds. eauto. }
    apply list_comp_length in H1, H2, H3, H4, H5, H6, H7.
    repeat split; congruence.
  - intros (info & table & Hinfo & Hteam & Hnat & Htable & Hd & Hh & Ha & Hr & Hm & Hg & Hi
            & Lh & La & Lr & Lm & Lg & Li).
    apply inner_content_succeeds in Hteam as [team Hteam].
    apply inner_content_succeeds in Hnat as [nat Hnat].
    apply (Forall_iff_exists _ _ _ inner_content_succeeds), list_comp_succeeds in Hd as [l1 H1].
    apply (Forall_iff_exists _ _ _ inner_content_succeeds), list_comp_succeeds in Hh as [l2 H2].
    apply (Forall_iff_exists _ _ _ inner_content_succeeds), list_comp_succeeds in Ha as [l3 H3].
    apply (Forall_iff_exists _ _ _ inner_content_succeeds), list_comp_succeeds in Hr as [l4 H4].
    apply (Forall_iff_exists _ _ _ (cleaned_content_succeeds clean_minutes)),
      list_comp_succeeds in Hm as [l5 H5].
    apply (Forall_iff_exists _ _ _ (cleaned_content_succeeds clean_rating)),
      list_comp_succeeds in Hg as [l6 H6].
    pose proof Hi as Hi2. pose proof Hi as Hi3. pose proof Hi as Hi4. pose proof Hi as Hi5.
    apply (Forall_iff_exists _ _ _ (count_incident_succeeds "Yellow Card")),
      list_comp_succeeds in Hi as [l7 H7].
    apply (Forall_iff_exists _ _ _ (count_incident_succeeds "Red Card")),
      list_comp_succeeds in Hi2 as [l8 H8].
    apply (Forall_iff_exists _ _ _ (count_incident_succeeds "Man of the match")),
      list_comp_succeeds in Hi3 as [l9 H9].
    apply (Forall_iff_exists _ _ _ (count_incident_succeeds "Goal")),
      list_comp_succeeds in Hi4 as [l10 H10].
    apply (Forall_iff_exists _ _ _ (count_incident_succeeds "Assist")),
      list_comp_succeeds in Hi5 as [l11 H11].
    apply list_comp_length in H1 as L1, H2 as L2, H3 as L3, H4 as L4, H5 as L5,
      H6 as L6, H7 as L7, H8 as L8, H9 as L9, H10 as L10, H11 as L11.
    unfold extract.
    assert (extract_lists soup =
            inr {| player_team := team; player_nationality := nat;
                   dates := l1; home_teams := l2; away_teams := l3; results := l4;
                   minutes := l5; ratings := l6; yellow_cards := l7; red_cards := l8;
                   man_of_the_match := l9; goals := l10; assists := l11 |}) as ->.
    { unfold extract_lists.
      rewrite Hinfo. simpl. rewrite Hteam, Hnat, Htable. simpl.
      rewrite H1, H2, H3, H4. simpl. rewrite H5, H6. simpl.
      by rewrite H7, H8, H9, H10, H11. }
    cbn [bind]. apply temp_frame_succeeds; simpl; congruence.
Qed.

(** ** The cells of the extracted frame *)

Lemma nth_map_lookup {A B} (f : A -> B) (l : list A) (i : nat) (v : A) (d : B) :
  l !! i = Some v -> nth i (map f l) d = f v.
Proof.
  revert i. induction l as [|x l IH]; intros [|i] H; simpl in *; try discriminate.
  - by inversion H.
  - by apply IH.
Qed.

Lemma clean_minutes_digits (s : string) : all_chars is_digit (clean_minutes s).
Proof.
  pose proof (re_sub_class_all (fun c => negb (is_digit c)) s) as H.
  unfold all_chars in *. eapply Forall_impl; [exact H|].
  intros c. simpl. by rewrite negb_involutive.
Qed.

Lemma clean_rating_digits_periods (s : string) :
  all_chars (fun c => is_digit c || is_period c) (clean_rating s).
Proof.
  pose proof (re_sub_class_all (fun c => negb (is_digit c || is_period c)) s) as H.
  unfold all_chars in *. eapply Forall_impl; [exact H|].
  intros c. simpl. by rewrite negb_involutive.
Qed.

Lemma five_counts_bound (incident : list wrapper) (yellow red mom goal assist : Z) :
  count_incident "Yellow Card" incident = inr yellow ->
  count_incident "Red Card" incident = inr red ->
  count_incident "Man of the match" incident = inr mom ->
  count_incident "Goal" incident = inr goal ->
  count_incident "Assist" incident = inr assist ->
  (0 <= yellow)%Z /\ (0 <= red)%Z /\ (0 <= mom)%Z /\ (0 <= goal)%Z /\ (0 <= assist)%Z /\
  (yellow + red + mom + goal + assist <= Z.of_nat (length incident))%Z.
Proof.
  intros Hy Hr Hm Hg Ha.
  apply count_incident_inv in Hy as (titles & -> & ->).
  apply count_incident_inv in Hr as (t2 & E2 & ->).
  apply count_incident_inv in Hm as (t3 & E3 & ->).
  apply count_incident_inv in Hg as (t4 & E4 & ->).
  apply count_incident_inv in Ha as (t5 & E5 & ->).
  apply (inj (map Some)) in E2, E3, E4, E5. subst t2 t3 t4 t5.
  rewrite length_map. pose proof (count_labels_disjoint titles). lia.
Qed.

Lemma list_comp_lookup {A B} (f : A -> result B) (l : list A) (ys : list B)
  (i : nat) (y : B) :
  list_comp f l = inr ys -> ys !! i = Some y ->
  exists x, l !! i = Some x /\ f x = inr y.
Proof.
  intros H Hy. apply list_comp_Forall2 in H.
  by apply (Forall2_lookup_r _ _ _ _ _ H) in Hy.
Qed.

Lemma inner_content_nth (cells : list (option (list node))) (i : nat)
  (found : option (list node)) (c : node) :
  cells !! i = Some found -> inner_content found = inr c -> nth_inner cells i = Some c.
Proof.
  intros Hi Hc. unfold nth_inner. rewrite Hi.
  destruct found as [[|c' rest]|]; try discriminate. by inversion Hc.
Qed.

Lemma cleaned_content_nth (clean : string -> string) (cells : list (list node))
  (i : nat) (contents : list node) (t : string) :
  cells !! i = Some contents ->
  bind (first_content contents) (fun c => re_sub clean c) = inr t ->
  exists raw, nth_first cells i = Some (Text raw) /\ t = clean raw.
Proof.
  intros Hi Ht. apply cleaned_content_inv in Ht as (raw & rest & -> & ->).
  exists raw. unfold nth_first. by rewrite Hi.
Qed.

(** X6. In every row of the frame extracted for a player: the columns are
    the 14 of the schema, in order; the name is the identifier given; club
    and nationality are the first children found in the profile region, and
    date, home, away and result the first children of the inner nodes of the
    match's cells, each put into the frame as it is, a text as a text and an
    element as the element; the minutes are the cleaned text of the first
    child of the minutes cell, which is a text, and consist of decimal
    digits; the rating likewise, of digits and periods; the five counts are
    integers, none negative, whose sum is at most the number of incident
    wrappers of that match. *)
Theorem temp_cells_typed (player_name : string) (soup : Page) (temp : DataFrame)
  (Hextract : extract player_name soup = inr temp) :
  exists info table,
    player_info_div soup = Some info /\
    stat_table_div soup = Some table /\
    forall i r,
      rows temp !! i = Some r ->
      map fst r = schema /\
      get_cell "Name" r = Str player_name /\
      (exists club nationality,
         inner_content (team_link info) = inr club /\
         inner_content (nationality_span info) = inr nationality /\
         get_cell "Club" r = cell_of_node club /\
         get_cell "Nationality" r = cell_of_node nationality) /\
      (exists d h a res,
         nth_inner (date_divs table) i = Some d /\
         nth_inner (home_team_divs table) i = Some h /\
         nth_inner (away_team_divs table) i = Some a /\
         nth_inner (result_divs table) i = Some res /\
         get_cell "Date" r = cell_of_node d /\ get_cell "Home" r = cell_of_node h /\
         get_cell "Away" r = cell_of_node a /\ get_cell "Result" r = cell_of_node res) /\
      (exists raw,
         nth_first (minutes_divs table) i = Some (Text raw) /\
         get_cell "Minutes" r = Str (clean_minutes raw) /\
         all_chars is_digit (clean_minutes raw)) /\
      (exists raw,
         nth_first (rating_divs table) i = Some (Text raw) /\
         get_cell "Ratings" r = Str (clean_rating raw) /\
         all_chars (fun c => is_digit c || is_period c) (clean_rating raw)) /\
      (exists incident yellow red goal assist mom,
         match_icons table !! i = Some incident /\
         get_cell "Yellow" r = Int yellow /\ get_cell "Red" r = Int red /\
         get_cell "Goals" r = Int goal /\ get_cell "Assists" r = Int assist /\
         get_cell "MOM" r = Int mom /\
         (0 <= yellow)%Z /\ (0 <= red)%Z /\ (0 <= goal)%Z /\ (0 <= assist)%Z /\
         (0 <= mom)%Z /\
         (yellow + red + goal + assist + mom <= Z.of_nat (length incident))%Z).
Proof.
  unfold extract in Hextract. apply bind_inr in Hextract as (x & Hx & Htemp).
  unfold extract_lists in Hx.
  apply bind_inr in Hx as (info & Hinfo & Hx).
  apply bind_inr in Hx as (team & Hteam & Hx).
  apply bind_inr in Hx as (nat & Hnat & Hx).
  apply bind_inr in Hx as (table & Htable & Hx).
  apply bind_inr in Hx as (l1 & H1 & Hx).
  apply bind_inr in Hx as (l2 & H2 & Hx).
  apply bind_inr in Hx as (l3 & H3 & Hx).
  apply bind_inr in Hx as (l4 & H4 & Hx).
  apply bind_inr in Hx as (l5 & H5 & Hx).
  apply bind_inr in Hx as (l6 & H6 & Hx).
  cbv zeta in Hx.
  apply bind_inr in Hx as (l7 & H7 & Hx).
  apply bind_inr in Hx as (l8 & H8 & Hx).
  apply bind_inr in Hx as (l9 & H9 & Hx).
  apply bind_inr in Hx as (l10 & H10 & Hx).
  apply bind_inr in Hx as (l11 & H11 & Hx).
  inversion Hx; subst x; clear Hx.
  apply frame_of_dict_inr in Htemp as (Hlen & _ & Hrows).
  cbv zeta in Hlen, Hrows. rewrite length_replicate in Hlen, Hrows.
  repeat (apply Forall_cons in Hlen as [? Hlen]). simpl in *.
  rewrite ?length_map in *.
  exists info, table.
  split. { by destruct (player_info_div soup); inversion Hinfo. }
  split. { by destruct (stat_table_div soup); inversion Htable. }
  intros i r Hi. rewrite Hrows in Hi. apply lookup_map_seq in Hi as [Hlt ->].
  assert (forall {A} (l : list A), length l = length l1 -> exists v, l !! i = Some v) as Hat.
  { intros A l Hl. apply lookup_lt_is_Some_2. lia. }
  destruct (Hat _ l1 eq_refl) as [v1 E1].
  destruct (Hat _ l2 ltac:(done)) as [v2 E2].
  destruct (Hat _ l3 ltac:(done)) as [v3 E3].
  destruct (Hat _ l4 ltac:(done)) as [v4 E4].
  destruct (Hat _ l5 ltac:(done)) as [v5 E5].
  destruct (Hat _ l6 ltac:(done)) as [v6 E6].
  destruct (Hat _ l7 ltac:(done)) as [v7 E7].
  destruct (Hat _ l8 ltac:(done)) as [v8 E8].
  destruct (Hat _ l9 ltac:(done)) as [v9 E9].
  destruct (Hat _ l10 ltac:(done)) as [v10 E10].
  destruct (Hat _ l11 ltac:(done)) as [v11 E11].
  unfold get_cell. simpl.
  rewrite !nth_replicate by exact Hlt.
  rewrite (nth_map_lookup cell_of_node l1 i v1), (nth_map_lookup cell_of_node l2 i v2),
    (nth_map_lookup cell_of_node l3 i v3), (nth_map_lookup cell_of_node l4 i v4),
    (nth_map_lookup Str l5 i v5), (nth_map_lookup Str l6 i v6),
    (nth_map_lookup Int l7 i v7), (nth_map_lookup Int l8 i v8),
    (nth_map_lookup Int l9 i v9), (nth_map_lookup Int l10 i v10),
    (nth_map_lookup Int l11 i v11) by done.
  split; [reflexivity|]. split; [reflexivity|].
  split; [by exists team, nat|].
  split.
  { destruct (list_comp_lookup _ _ _ _ _ H1 E1) as (c1 & Ec1 & Hc1).
    destruct (list_comp_lookup _ _ _ _ _ H2 E2) as (c2 & Ec2 & Hc2).
    destruct (list_comp_lookup _ _ _ _ _ H3 E3) as (c3 & Ec3 & Hc3).
    destruct (list_comp_lookup _ _ _ _ _ H4 E4) as (c4 & Ec4 & Hc4).
    exists v1, v2, v3, v4.
    rewrite (inner_content_nth _ _ _ _ Ec1 Hc1), (inner_content_nth _ _ _ _ Ec2 Hc2),
      (inner_content_nth _ _ _ _ Ec3 Hc3), (inner_content_nth _ _ _ _ Ec4 Hc4).
    by repeat split. }
  split.
  { destruct (list_comp_lookup _ _ _ _ _ H5 E5) as (c & Ec & Hc).
    destruct (cleaned_content_nth _ _ _ _ _ Ec Hc) as (raw & Hraw & ->).
    exists raw. split; [exact Hraw|]. split; [reflexivity|]. apply clean_minutes_digits. }
  split.
  { destruct (list_comp_lookup _ _ _ _ _ H6 E6) as (c & Ec & Hc).
    destruct (cleaned_content_nth _ _ _ _ _ Ec Hc) as (raw & Hraw & ->).
    exists raw. split; [exact Hraw|]. split; [reflexivity|].
    apply clean_rating_digits_periods. }
  destruct (list_comp_lookup _ _ _ _ _ H7 E7) as (inc & Einc & C7).
  destruct (list_comp_lookup _ _ _ _ _ H8 E8) as (inc8 & Einc8 & C8).
  destruct (list_comp_lookup _ _ _ _ _ H9 E9) as (inc9 & Einc9 & C9).
  destruct (list_comp_lookup _ _ _ _ _ H10 E10) as (inc10 & Einc10 & C10).
  destruct (list_comp_lookup _ _ _ _ _ H11 E11) as (inc11 & Einc11 & C11).
  assert (inc8 = inc) as -> by congruence.
  assert (inc9 = inc) as -> by congruence.
  assert (inc10 = inc) as -> by congruence.
  assert (inc11 = inc) as -> by congruence.
  pose proof (five_counts_bound inc v7 v8 v9 v10 v11 C7 C8 C9 C10 C11).
  exists inc, v7, v8, v10, v11, v9. repeat split; try done; lia.
Qed.

Lemma temp_cells_typed_witness :
  exists r,
    rows (sample_frame "A A") !! 0 = Some r /\
    get_cell "Date" r = Str "17-09-2024" /\
    get_cell "Minutes" r = Str "90" /\
    get_cell "Ratings" r = Str "7.8".
Proof.
  assert (extract "A A" sample_page = inr (sample_frame "A A")) as E
    by (vm_compute; reflexivity).
  pose proof (temp_cells_typed "A A" sample_page (sample_frame "A A") E) as H.
  destruct H as (info & table & _ & Htable & H).
  injection Htable as <-.
  assert (exists r, rows (sample_frame "A A") !! 0 = Some r) as [r Hr]
    by (vm_compute; eexists; reflexivity).
  destruct (H 0 r Hr) as (_ & _ & _ & (d & h & a & res & Hd & _ & _ & _ & Hdate & _) &
                          (m & Hm & Hmin & _) & (g & Hg & Hrat & _) & _).
  injection Hd as <-. injection Hm as <-. injection Hg as <-.
  exists r. split; [exact Hr|]. split; [exact Hdate|]. split; [exact Hmin|exact Hrat].
Defined.

(** ** What a run requests, prints and commits *)

Section Accounting.

Variable render : string -> result Page.

Lemma steps_accounting (targets : list string) (st : State) :
  exists new_requests new_names new_lines,
    requests (world (foldl (step render) st targets)) =
      requests (world st) ++ new_requests /\
    processed_names (foldl (step render) st targets) =
      new_names ++ processed_names st /\
    stdout (world (foldl (step render) st targets)) =
      stdout (world st) ++ new_lines /\
    length new_requests = length new_names + length new_lines /\
    Forall (fun line => exists t e, t ∈ targets /\ attempt render t = inl e /\
                                    line = error_line (player_name_of t) e) new_lines /\
    new_requests `sublist_of` map player_url targets.
Proof.
  revert st. induction targets as [|t targets IH]; intros st.
  - exists [], [], []. simpl. rewrite !app_nil_r. repeat split; try done.
  - simpl. destruct (IH (step render st t)) as (rq & nm & ln & -> & -> & -> & Hlen & Hln & Hsub).
    assert (Forall (fun line => exists t0 e, t0 ∈ t :: targets /\ attempt render t0 = inl e /\
                                  line = error_line (player_name_of t0) e) ln) as Hln'.
    { eapply Forall_impl; [exact Hln|]. intros line (t0 & e & Hin & Ha & ->).
      exists t0, e. split; [by apply list_elem_of_further|by split]. }
    unfold step. case_decide as Hd.
    + exists rq, nm, ln. repeat split; try done. by apply sublist_cons.
    + destruct (attempt render t) as [e|temp] eqn:Ea; simpl.
      * exists (player_url t :: rq), nm, (error_line (player_name_of t) e :: ln).
        rewrite <- !app_assoc. simpl. repeat split; try done; [lia| |by apply sublist_skip].
        apply Forall_cons. split; [|exact Hln'].
        exists t, e. split; [apply list_elem_of_here|by split].
      * exists (player_url t :: rq), (nm ++ [Str (player_name_of t)]), ln.
        rewrite <- !app_assoc. simpl. repeat split; try done; [|by apply sublist_skip].
        rewrite length_app. simpl. lia.
Qed.

(** Every committed target, with its frame, in the order of the commits. *)
Lemma steps_commits (targets : list string) (st : State) :
  exists commits : list (string * DataFrame),
    map fst commits `sublist_of` targets /\
    Forall (fun c => attempt render (fst c) = inr (snd c)) commits /\
    rows (data (foldl (step render) st targets)) =
      rows (data st) ++ flat_map (fun c => rows (snd c)) commits /\
    processed_names (foldl (step render) st targets) =
      rev (map (fun c => Str (player_name_of (fst c))) commits) ++ processed_names st /\
    NoDup (map (fun c => player_name_of (fst c)) commits) /\
    Forall (fun c => Str (player_name_of (fst c)) ∉ processed_names st) commits.
Proof.
  revert st. induction targets as [|t targets IH]; intros st.
  - exists []. simpl. rewrite app_nil_r. repeat split; try done. apply NoDup_nil_2.
  - simpl. destruct (IH (step render st t)) as (cs & Hsub & Hatt & Hrows & Hnames & Hnd & Hfresh).
    unfold step in *. case_decide as Hd.
    + exists cs. repeat split; try done. by apply sublist_cons.
    + destruct (attempt render t) as [e|temp] eqn:Ea.
      * exists cs. repeat split; try done. by apply sublist_cons.
      * exists ((t, temp) :: cs). simpl in *.
        split; [by apply sublist_skip|].
        split; [by apply Forall_cons|].
        split; [by rewrite Hrows, <- app_assoc|].
        split; [by rewrite Hnames, <- app_assoc|].
        split.
        -- apply NoDup_cons. split; [|exact Hnd].
           intros Hin. apply list_elem_of_In, in_map_iff in Hin as (c & Hc & Hin).
           rewrite Forall_forall in Hfresh. apply (Hfresh c); [by apply list_elem_of_In|].
           rewrite Hc. apply list_elem_of_here.
        -- apply Forall_cons. split; [exact Hd|].
           eapply Forall_impl; [exact Hfresh|]. intros c Hc Hin.
           apply Hc. by apply list_elem_of_further.
Qed.

Lemma extract_rows_keys (name : string) (soup : Page) (temp : DataFrame) :
  extract name soup = inr temp -> well_shaped temp.
Proof.
  intros H. split; [by apply extract_names in H as [? _]|].
  unfold extract in H. apply bind_inr in H as (x & _ & H).
  apply frame_of_dict_inr in H as (_ & _ & ->).
  apply Forall_forall. intros r Hr.
  apply list_elem_of_In, in_map_iff in Hr as (i & <- & _). reflexivity.
Qed.

Lemma attempt_well_shaped (link : string) (temp : DataFrame) :
  attempt render link = inr temp -> well_shaped temp.
Proof.
  unfold attempt. intros H. apply bind_inr in H as (soup & _ & H).
  by eapply extract_rows_keys.
Qed.

Lemma concat_well_shaped (a b : DataFrame) :
  well_shaped a -> well_shaped b -> well_shaped (concat_frames a b).
Proof.
  intros [Ca Ra] [Cb Rb]. split; simpl.
  - rewrite Ca, Cb, filter_none; [by rewrite app_nil_r|]. intros c Hc Hn. by apply Hn.
  - by apply Forall_app.
Qed.

Lemma read_csv_well_shaped (rd : Reader) (d : DataFrame) :
  well_shaped d -> well_shaped (read_csv rd d).
Proof.
  intros [Hc _]. split; [exact Hc|]. simpl.
  apply Forall_forall. intros r2 Hin.
  apply elem_of_lookup_imap_1 in Hin as (i & r & -> & _).
  rewrite map_map. simpl. by rewrite map_id.
Qed.

Lemma steps_well_shaped (targets : list string) (st : State) :
  well_shaped (data st) -> well_shaped (data (foldl (step render) st targets)).
Proof.
  revert st. induction targets as [|t targets IH]; intros st H; [exact H|].
  simpl. apply IH. unfold step. case_decide; [exact H|].
  destruct (attempt render t) as [e|temp] eqn:Ea; [exact H|].
  simpl. apply concat_well_shaped; [exact H|]. by apply (attempt_well_shaped t).
Qed.

End Accounting.

(** X7. In any stretch of the loop, every page requested ends in exactly
    one of two ways, a commit (one more processed name) or one printed line:
    the number of requests is the number of commits plus the number of lines;
    nothing else is printed, each line being the error line of a target
    whose fetch or extraction raised. *)
Theorem requests_accounted (render : string -> result Page) (targets : list string)
  (st : State) :
  let st' := exec (for_each targets (process_link render)) st in
  exists new_requests new_names new_lines,
    requests (world st') = requests (world st) ++ new_requests /\
    processed_names st' = new_names ++ processed_names st /\
    stdout (world st') = stdout (world st) ++ new_lines /\
    length new_requests = length new_names + length new_lines /\
    Forall (fun line => exists t e, t ∈ targets /\ attempt render t = inl e /\
                                    line = error_line (player_name_of t) e) new_lines.
Proof.
  intros st'. subst st'. rewrite exec_for_each.
  destruct (steps_accounting render targets st) as (rq & nm & ln & H1 & H2 & H3 & H4 & H5 & _).
  by exists rq, nm, ln.
Qed.

(** X8. A run of [getPlayersData] requests only player pages of links found
    in the link lists, each at most once, and in the order in which the
    targets are visited. *)
Theorem no_page_requested_twice (rd : Reader) (render : string -> result Page)
  (links : list (list string)) (w : World) :
  exists new_requests,
    requests (snd (getPlayersData rd render links w)) = requests w ++ new_requests /\
    NoDup new_requests /\
    new_requests `sublist_of` map player_url (links_flat links) /\
    forall u, u ∈ new_requests ->
      exists club link, club ∈ links /\ link ∈ club /\ u = player_url link.
Proof.
  assert (exists new_requests,
             requests (snd (getPlayersData rd render links w)) = requests w ++ new_requests /\
             new_requests `sublist_of` map player_url (links_flat links))
    as (rq & Hreq & Hsub).
  { unfold getPlayersData. destruct (load rd w) as [e|[d p]] eqn:Hload.
    - unfold run_targets. rewrite Hload. exists []. simpl. rewrite app_nil_r.
      split; [reflexivity|apply sublist_nil_l].
    - rewrite (run_targets_loaded rd render _ w d p Hload). simpl.
      destruct (steps_accounting render (links_flat links)
                  {| data := d; processed_names := p; world := w |})
        as (rq & _ & _ & H1 & _ & _ & _ & _ & H6).
      by exists rq. }
  exists rq. split; [exact Hreq|]. split; [|split; [exact Hsub|]].
  - refine (sublist_NoDup _ _ _ Hsub).
    change (map player_url (links_flat links)) with (player_url <$> links_flat links).
    apply NoDup_fmap_2_strong; [|apply NoDup_links_flat].
    intros x y _ _. apply player_url_inj.
  - intros u Hu. apply (elem_of_sublist _ _ _ Hu) in Hsub as Hin.
    apply list_elem_of_In, in_map_iff in Hin as (link & <- & Hin).
    apply list_elem_of_In, elem_of_links_flat, list_elem_of_In, in_concat in Hin
      as (club & Hc & Hl).
    exists club, link. repeat split; by apply list_elem_of_In.
Qed.

(** X9. A run that starts without a file, or with a file over the 14
    columns of the schema, ends normally and leaves no file or a file over
    the same 14 columns, in the same order, every row giving a value to each
    of them. *)
Theorem schema_preserved (rd : Reader) (render : string -> result Page)
  (links : list (list string)) (w : World)
  (Hshape : file_well_shaped w) :
  fst (getPlayersData rd render links w) = inr tt /\
  file_well_shaped (snd (getPlayersData rd render links w)).
Proof.
  unfold getPlayersData.
  assert (exists d p, load rd w = inr (d, p) /\ well_shaped d) as (d & p & Hload & Hd).
  { unfold file_well_shaped in Hshape. destruct (file w) as [d|] eqn:Hfile.
    - exists (read_csv rd d), (unique (names_of (read_csv rd d))).
      split; [|by apply read_csv_well_shaped].
      apply load_present; [exact Hfile|]. destruct Hshape as [-> _]. apply name_in_schema.
    - exists (empty_frame schema), []. split; [by apply load_absent|].
      split; [reflexivity|apply Forall_nil_2]. }
  rewrite (run_targets_loaded rd render _ w d p Hload). simpl. split; [reflexivity|].
  set (st0 := {| data := d; processed_names := p; world := w |}).
  unfold file_well_shaped.
  destruct (steps_file_cases render (links_flat links) st0) as [(_ & _ & Hf)|Hf];
    rewrite Hf.
  - exact Hshape.
  - by apply steps_well_shaped.
Qed.

Lemma schema_preserved_witness :
  file_well_shaped
    (snd (getPlayersData sample_reader sample_render [[link_A; link_B]; [link_D]]
            fresh_world)).
Proof.
  apply (schema_preserved sample_reader sample_render [[link_A; link_B]; [link_D]]
           fresh_world).
  exact I.
Defined.

(** X10. The rows a stretch of the loop adds are the frames of the targets
    it commits, one after the other in the order of the commits; each
    committed target is a target of the list whose fetch and extraction
    succeeded; no identifier is committed twice, and none that was among
    the processed names before. *)
Theorem commits_characterised (render : string -> result Page)
  (targets : list string) (st : State) :
  let st' := exec (for_each targets (process_link render)) st in
  exists commits : list (string * DataFrame),
    map fst commits `sublist_of` targets /\
    Forall (fun c => attempt render (fst c) = inr (snd c)) commits /\
    rows (data st') = rows (data st) ++ flat_map (fun c => rows (snd c)) commits /\
    processed_names st' =
      rev (map (fun c => Str (player_name_of (fst c))) commits) ++ processed_names st /\
    NoDup (map (fun c => player_name_of (fst c)) commits) /\
    Forall (fun c => Str (player_name_of (fst c)) ∉ processed_names st) commits.
Proof.
  intros st'. subst st'. rewrite exec_for_each. apply steps_commits.
Qed.

(** ** Visiting in another order *)

Section Orders.

Variable render : string -> result Page.

Lemma flat_map_ext_elem {A B} (f g : A -> list B) (l : list A) :
  (forall x, x ∈ l -> f x = g x) -> flat_map f l = flat_map g l.
Proof.
  induction l as [|x l IH]; intros H; [reflexivity|]. simpl.
  rewrite (H x) by apply list_elem_of_here. f_equal.
  apply IH. intros y Hy. by apply H, list_elem_of_further.
Qed.

Lemma rows_foldl_concat (d : DataFrame) (fs : list DataFrame) :
  rows (foldl concat_frames d fs) = rows d ++ flat_map rows fs.
Proof.
  revert d. induction fs as [|f fs IH]; intros d; simpl; [by rewrite app_nil_r|].
  rewrite IH. simpl. by rewrite <- app_assoc.
Qed.

Lemma columns_foldl_concat (d : DataFrame) (fs : list DataFrame) :
  Forall (fun f => columns f = schema) fs ->
  columns (foldl concat_frames d fs) =
  match fs with
  | [] => columns d
  | _ :: _ => columns d ++ filter (fun c => c ∉ columns d) schema
  end.
Proof.
  intros H. destruct H as [|f fs Hf Hfs]; [reflexivity|]. simpl.
  assert (forall d', (forall c, c ∈ schema -> c ∈ columns d') ->
                     columns (foldl concat_frames d' fs) = columns d') as Hstable.
  { induction Hfs as [|g gs Hg _ IH]; intros d' Hd'; [reflexivity|]. simpl.
    assert (forall c, c ∈ columns g -> c ∈ columns d') as Hgd by (rewrite Hg; exact Hd').
    assert (columns (concat_frames d' g) = columns d') as E.
    { simpl. rewrite filter_none; [by rewrite app_nil_r|]. intros c Hc Hn. by apply Hn, Hgd. }
    rewrite IH; [exact E|]. rewrite E. exact Hd'. }
  rewrite Hstable; simpl; rewrite Hf; [reflexivity|].
  intros c Hc. apply elem_of_app.
  destruct (decide (c ∈ columns d)); [by left|right]. by apply list_elem_of_filter.
Qed.

(** With pairwise distinct identifiers, each target adds its frame unless
    its identifier was processed before the run. *)
Lemma steps_distinct_names (targets : list string) (st : State) :
  NoDup (map player_name_of targets) ->
  let fs := flat_map (frames_of render (processed_names st)) targets in
  data (foldl (step render) st targets) = foldl concat_frames (data st) fs /\
  file (world (foldl (step render) st targets)) =
    match fs with
    | [] => file (world st)
    | _ :: _ => Some (foldl concat_frames (data st) fs)
    end.
Proof.
  revert st. induction targets as [|t targets IH]; intros st Hnd; [by split|].
  simpl in Hnd. apply NoDup_cons in Hnd as [Ht Hnd]. simpl.
  destruct (IH (step render st t) Hnd) as [Hdata Hfile].
  assert (flat_map (frames_of render (processed_names (step render st t))) targets =
          flat_map (frames_of render (processed_names st)) targets) as E.
  { apply flat_map_ext_elem. intros t' Hin. unfold frames_of, step.
    destruct (decide (Str (player_name_of t) ∈ processed_names st)) as [Hd|Hd];
      [reflexivity|].
    destruct (attempt render t) as [e|temp]; [reflexivity|]. simpl.
    destruct (decide (Str (player_name_of t') ∈ processed_names st)) as [H1|H1].
    - by rewrite decide_True by by apply list_elem_of_further.
    - rewrite decide_False; [reflexivity|]. rewrite not_elem_of_cons. split; [|exact H1].
      intros Heq. inversion Heq as [Hn]. apply Ht. rewrite <- Hn.
      by apply list_elem_of_In, in_map, list_elem_of_In. }
  rewrite E in Hdata, Hfile. rewrite Hdata, Hfile.
  set (fs := flat_map (frames_of render (processed_names st)) targets).
  destruct (decide (Str (player_name_of t) ∈ processed_names st)) as [Hd|Hd].
  - assert (frames_of render (processed_names st) t = []) as ->.
    { unfold frames_of. by rewrite decide_True. }
    by rewrite (step_skip render t st Hd).
  - destruct (attempt render t) as [e|temp] eqn:Ea.
    + assert (frames_of render (processed_names st) t = []) as ->.
      { unfold frames_of. by rewrite decide_False, Ea. }
      by rewrite (step_report render t e st Hd Ea).
    + assert (frames_of render (processed_names st) t = [temp]) as ->.
      { unfold frames_of. by rewrite decide_False, Ea. }
      rewrite (step_commit render t temp st Hd Ea). simpl.
      split; [reflexivity|]. by destruct fs.
Qed.

End Orders.

(** X12. When the targets have pairwise distinct identifiers, the order in
    which a run visits them does not matter for the data set: two runs from
    the same world over the same targets in different orders both leave no
    file, or leave files with the same columns and the same rows up to
    order. *)
Theorem order_independent (rd : Reader) (render : string -> result Page)
  (targets targets' : list string) (w : World)
  (Hperm : targets ≡ₚ targets')
  (Hnames : NoDup (map player_name_of targets)) :
  fst (run_targets rd render targets w) = fst (run_targets rd render targets' w) /\
  match file (snd (run_targets rd render targets w)),
        file (snd (run_targets rd render targets' w)) with
  | Some d, Some d' => columns d = columns d' /\ rows d ≡ₚ rows d'
  | None, None => True
  | _, _ => False
  end.
Proof.
  destruct (load rd w) as [e|[d p]] eqn:Hload.
  { unfold run_targets. rewrite Hload. simpl. split; [reflexivity|].
    destruct (file w); [by split|done]. }
  rewrite !(run_targets_loaded rd render _ w d p Hload). simpl. split; [reflexivity|].
  set (st0 := {| data := d; processed_names := p; world := w |}).
  assert (NoDup (map player_name_of targets')) as Hnames'.
  { by rewrite <- Hperm. }
  destruct (steps_distinct_names render targets st0 Hnames) as [_ ->].
  destruct (steps_distinct_names render targets' st0 Hnames') as [_ ->].
  simpl.
  assert (flat_map (frames_of render p) targets ≡ₚ flat_map (frames_of render p) targets')
    as Hfs by by rewrite Hperm.
  assert (forall ts, Forall (fun f => columns f = schema) (flat_map (frames_of render p) ts))
    as Hcols.
  { intros ts. apply Forall_forall. intros f Hf.
    apply list_elem_of_In, in_flat_map in Hf as (t & _ & Hf). unfold frames_of in Hf.
    case_decide; [done|].
    destruct (attempt render t) as [e|temp] eqn:Ea; [done|].
    destruct Hf as [<-|[]]. by apply attempt_names in Ea as [? _]. }
  destruct (flat_map (frames_of render p) targets) as [|f fs] eqn:E1;
    destruct (flat_map (frames_of render p) targets') as [|f' fs'] eqn:E2.
  - destruct (file w); [by split|done].
  - by apply Permutation_nil_cons in Hfs.
  - symmetry in Hfs. by apply Permutation_nil_cons in Hfs.
  - split.
    + pose proof (Hcols targets) as H1. pose proof (Hcols targets') as H2.
      rewrite E1 in H1. rewrite E2 in H2.
      by rewrite (columns_foldl_concat d (f :: fs) H1), (columns_foldl_concat d (f' :: fs') H2).
    + rewrite !rows_foldl_concat. apply Permutation_app; [reflexivity|].
      by apply Permutation_flat_map.
Qed.

(** ** The club list *)

Lemma combine_maps {A B C} (f : A -> B) (g : A -> C) (l : list A) :
  combine (map f l) (map g l) = map (fun a => (f a, g a)) l.
Proof. induction l as [|a l IH]; simpl; [reflexivity|]. by rewrite IH. Qed.

(** X13. [getClubs] reads the first clubs wrapper of the page only: it
    gives one name and one link per anchor of that wrapper, in document
    order, the i-th name and the i-th link being the title and the href of
    the same anchor ([None] where the attribute is missing); on a page
    without a wrapper it raises IndexError, and an exception of the
    rendering is passed on. *)
Theorem getClubs_pairs (render_clubs : string -> result ClubsPage) (url : string) :
  match getClubs render_clubs url with
  | inr (names, links) =>
      exists table others,
        render_clubs url = inr (table :: others) /\
        length names = length table /\
        length links = length table /\
        combine names links = map (fun a => (title a, href a)) table
  | inl e =>
      render_clubs url = inl e \/
      (render_clubs url = inr [] /\ e = IndexError "list index out of range")
  end.
Proof.
  unfold getClubs. destruct (render_clubs url) as [e|[|table others]]; simpl.
  - by left.
  - by right.
  - exists table, others. rewrite !length_map, combine_maps. by repeat split.
Qed.

(** ** The link file *)

Section LinkFacts.

Variable TEAM_ID : gmap string string.
Variable render_team : string -> result TeamPage.

Lemma club_requests_cons (url name id : string) (names : list string) :
  TEAM_ID !! name = Some id ->
  club_requests TEAM_ID url (name :: names) =
  team_url url id :: club_requests TEAM_ID url names.
Proof. intros H. unfold club_requests. simpl. by rewrite H. Qed.

Lemma club_requests_unknown (url name : string) :
  TEAM_ID !! name = None -> club_requests TEAM_ID url [name] = [].
Proof. intros H. unfold club_requests. simpl. by rewrite H. Qed.

Lemma club_requests_app (url : string) (l k : list string) :
  club_requests TEAM_ID url (l ++ k) =
  club_requests TEAM_ID url l ++ club_requests TEAM_ID url k.
Proof. apply omap_app. Qed.

Lemma club_links_some (url name id : string) (players : list Anchor) :
  TEAM_ID !! name = Some id ->
  render_team (team_url url id) = inr (Some players) ->
  club_links TEAM_ID render_team url name = Some (map href players).
Proof. intros H1 H2. unfold club_links. by rewrite H1, H2. Qed.

Lemma collect_links_ok (url : string) (names : list string)
  (acc : list (list (option string))) (reqs : list string)
  (all : list (list (option string))) (reqs' : list string) :
  collect_links TEAM_ID render_team url names acc reqs = (inr all, reqs') ->
  exists ls,
    Forall2 (fun name l => club_links TEAM_ID render_team url name = Some l) names ls /\
    all = acc ++ ls /\
    reqs' = reqs ++ club_requests TEAM_ID url names /\
    length (club_requests TEAM_ID url names) = length names.
Proof.
  revert acc reqs. induction names as [|name names IH]; intros acc reqs H; simpl in H.
  - inversion H; subst. exists []. rewrite !app_nil_r. by repeat split.
  - destruct (TEAM_ID !! name) as [id|] eqn:Eid; [|discriminate].
    destruct (render_team (team_url url id)) as [e|[players|]] eqn:Er; try discriminate.
    apply IH in H as (ls & Hls & -> & -> & Hlen).
    exists (map href players :: ls).
    rewrite (club_requests_cons url name id names Eid), <- !app_assoc. simpl.
    split; [|by rewrite Hlen].
    apply Forall2_cons. split; [|exact Hls]. by apply (club_links_some url name id).
Qed.

Lemma collect_links_complete (url : string) (names : list string)
  (acc : list (list (option string))) (reqs : list string)
  (ls : list (list (option string))) :
  Forall2 (fun name l => club_links TEAM_ID render_team url name = Some l) names ls ->
  collect_links TEAM_ID render_team url names acc reqs =
  (inr (acc ++ ls), reqs ++ club_requests TEAM_ID url names).
Proof.
  intros H. revert acc reqs. induction H as [|name l names ls Hl _ IH]; intros acc reqs.
  - simpl. by rewrite !app_nil_r.
  - simpl collect_links. unfold club_links in Hl.
    destruct (TEAM_ID !! name) as [id|] eqn:Eid; [|discriminate].
    destruct (render_team (team_url url id)) as [e|[players|]] eqn:Er; try discriminate.
    inversion Hl; subst l.
    rewrite IH, (club_requests_cons url name id names Eid), <- !app_assoc. reflexivity.
Qed.

Lemma collect_links_fails (url : string) (names : list string)
  (acc : list (list (option string))) (reqs : list string)
  (e : error) (reqs' : list string) :
  collect_links TEAM_ID render_team url names acc reqs = (inl e, reqs') ->
  exists done bad rest ls,
    names = done ++ bad :: rest /\
    Forall2 (fun name l => club_links TEAM_ID render_team url name = Some l) done ls /\
    club_links TEAM_ID render_team url bad = None /\
    e = club_error TEAM_ID render_team url bad /\
    reqs' = reqs ++ club_requests TEAM_ID url (done ++ [bad]).
Proof.
  revert acc reqs. induction names as [|name names IH]; intros acc reqs H; simpl in H.
  - discriminate.
  - destruct (TEAM_ID !! name) as [id|] eqn:Eid.
    + destruct (render_team (team_url url id)) as [e'|[players|]] eqn:Er.
      * inversion H; subst. exists [], name, names, []. cbn [app].
        rewrite (club_requests_cons url name id [] Eid).
        unfold club_links, club_error. rewrite Eid, Er.
        repeat split; try done; try apply Forall2_nil_2.
      * apply IH in H as (done & bad & rest & ls & -> & Hls & Hbad & -> & ->).
        exists (name :: done), bad, rest, (map href players :: ls).
        split; [reflexivity|]. split.
        { apply Forall2_cons. split; [|exact Hls]. by apply (club_links_some url name id). }
        split; [exact Hbad|]. split; [reflexivity|].
        change ((name :: done) ++ [bad]) with (name :: (done ++ [bad])).
        by rewrite (club_requests_cons url name id _ Eid), <- app_assoc.
      * inversion H; subst. exists [], name, names, []. cbn [app].
        rewrite (club_requests_cons url name id [] Eid).
        unfold club_links, club_error. rewrite Eid, Er.
        repeat split; try done; try apply Forall2_nil_2.
    + inversion H; subst. exists [], name, names, []. cbn [app].
      rewrite (club_requests_unknown url name Eid), app_nil_r.
      unfold club_links, club_error. rewrite Eid.
      repeat split; try done; try apply Forall2_nil_2.
Qed.

End LinkFacts.

(** X14. [getWhoScoredLinks] ends normally exactly when every club name is a
    key of [TEAM_ID] and every team page is rendered and has the statistics
    table. It then writes one inner list per name, in the order of the
    names, the list of a club being the hrefs of the player anchors of its
    page ([None] for an anchor without href), and it has requested one team
    page per name, in order, a name given twice being fetched twice. *)
Theorem links_written (TEAM_ID : gmap string string)
  (render_team : string -> result TeamPage)
  (names : list string) (url : string) (w : LinkWorld) :
  ((exists w', getWhoScoredLinks TEAM_ID render_team names url w = (inr tt, w')) <->
   Forall (fun name => is_Some (club_links TEAM_ID render_team url name)) names) /\
  (forall w',
     getWhoScoredLinks TEAM_ID render_team names url w = (inr tt, w') ->
     exists all_links,
       link_file w' = Some all_links /\
       length all_links = length names /\
       Forall2 (fun name l => club_links TEAM_ID render_team url name = Some l)
               names all_links /\
       team_requests w' = team_requests w ++ club_requests TEAM_ID url names /\
       length (club_requests TEAM_ID url names) = length names).
Proof.
  assert (forall w',
     getWhoScoredLinks TEAM_ID render_team names url w = (inr tt, w') ->
     exists all_links,
       link_file w' = Some all_links /\
       length all_links = length names /\
       Forall2 (fun name l => club_links TEAM_ID render_team url name = Some l)
               names all_links /\
       team_requests w' = team_requests w ++ club_requests TEAM_ID url names /\
       length (club_requests TEAM_ID url names) = length names) as Hshape.
  { intros w' H. unfold getWhoScoredLinks in H.
    destruct (collect_links TEAM_ID render_team url names [] (team_requests w))
      as [[e|all] reqs] eqn:E; [discriminate|].
    inversion H; subst w'; clear H. simpl.
    apply collect_links_ok in E as (ls & Hls & -> & -> & Hlen).
    exists ls. simpl. repeat split; try done. symmetry. by eapply Forall2_length. }
  split; [|exact Hshape]. split.
  - intros [w' H]. destruct (Hshape w' H) as (ls & _ & _ & Hls & _).
    clear -Hls. induction Hls as [|name l names ls Hl _ IH]; [apply Forall_nil_2|].
    apply Forall_cons. split; [by exists l|exact IH].
  - intros Hall.
    assert (exists ls, Forall2 (fun name l =>
               club_links TEAM_ID render_team url name = Some l) names ls) as [ls Hls].
    { clear -Hall. induction Hall as [|name names [l Hl] _ [ls IH]]; [by exists []|].
      exists (l :: ls). by apply Forall2_cons. }
    unfold getWhoScoredLinks.
    rewrite (collect_links_complete TEAM_ID render_team url names [] _ ls Hls).
    by eexists.
Qed.

(** X15. When [getWhoScoredLinks] raises, the link file is left as it was:
    the lists collected before the failure are lost and an older file is
    not replaced. The exception is that of the first club that cannot be
    collected: KeyError for a name missing from [TEAM_ID], in which case its
    page is not requested; the rendering exception, or AttributeError for a
    page without the statistics table, after the request. No club after it
    is requested. *)
Theorem links_not_written (TEAM_ID : gmap string string)
  (render_team : string -> result TeamPage)
  (names : list string) (url : string) (w w' : LinkWorld) (e : error)
  (Hfail : getWhoScoredLinks TEAM_ID render_team names url w = (inl e, w')) :
  link_file w' = link_file w /\
  exists done bad rest,
    names = done ++ bad :: rest /\
    Forall (fun name => is_Some (club_links TEAM_ID render_team url name)) done /\
    club_links TEAM_ID render_team url bad = None /\
    e = club_error TEAM_ID render_team url bad /\
    team_requests w' = team_requests w ++ club_requests TEAM_ID url (done ++ [bad]) /\
    (TEAM_ID !! bad = None ->
     e = KeyError bad /\
     team_requests w' = team_requests w ++ club_requests TEAM_ID url done).
Proof.
  unfold getWhoScoredLinks in Hfail.
  destruct (collect_links TEAM_ID render_team url names [] (team_requests w))
    as [[e'|all] reqs] eqn:E; [|discriminate].
  inversion Hfail; subst w' e'; clear Hfail. simpl. split; [reflexivity|].
  apply collect_links_fails in E as (done & bad & rest & ls & -> & Hls & Hbad & -> & ->).
  exists done, bad, rest. split; [reflexivity|]. split.
  { clear -Hls. induction Hls as [|name l names ls Hl _ IH]; [apply Forall_nil_2|].
    apply Forall_cons. split; [by exists l|exact IH]. }
  split; [exact Hbad|]. split; [reflexivity|]. split; [reflexivity|].
  intros Hid. split.
  - unfold club_error. by rewrite Hid.
  - by rewrite club_requests_app, (club_requests_unknown _ _ _ Hid), app_nil_r.
Qed.

(** ** The run from the link file *)

Section PickledFacts.

Variable rd : Reader.
Variable render : string -> result Page.

Lemma for_each_targets_some (ts : list string) (st : State) :
  for_each (map Some ts) (process_target render) st =
  for_each ts (process_link render) st.
Proof.
  revert st. induction ts as [|t ts IH]; intros st; [reflexivity|].
  simpl. unfold mbind. destruct (process_link render t st) as [[e|u] st']; [reflexivity|].
  apply IH.
Qed.

Lemma for_each_abort (ts : list string) (post : list (option string)) (st : State) :
  for_each (map Some ts ++ None :: post) (process_target render) st =
  (inl (none_has_no "split"), foldl (step render) st ts).
Proof.
  revert st. induction ts as [|t ts IH]; intros st; [reflexivity|].
  simpl. unfold mbind. rewrite process_link_step. apply IH.
Qed.

Lemma all_some_map (l : list (option string)) :
  None ∉ l -> l = map Some (omap id l).
Proof.
  induction l as [|x l IH]; intros H; [reflexivity|].
  rewrite not_elem_of_cons in H. destruct H as [Hx Hl].
  destruct x as [x|]; [|done]. simpl. f_equal. by apply IH.
Qed.

Lemma elem_of_omap_id (l : list (option string)) (x : string) :
  x ∈ omap id l <-> Some x ∈ l.
Proof.
  rewrite list_elem_of_omap. split.
  - intros (y & Hy & Hid). simpl in Hid. by subst.
  - intros H. by exists (Some x).
Qed.

Lemma elem_of_map_some (ts : list string) (x : string) :
  Some x ∈ map Some ts <-> x ∈ ts.
Proof.
  rewrite list_elem_of_In, in_map_iff, list_elem_of_In. split.
  - intros (y & Hy & H). by inversion Hy; subst.
  - intros H. by exists x.
Qed.

Lemma pickled_run_some (ls : list (list (option string))) (w : World) :
  None ∉ concat ls ->
  exists ts,
    NoDup ts /\
    (forall x, x ∈ ts <-> Some x ∈ concat ls) /\
    getPlayersData_pickled rd render (Some ls) w =
    (as_error (fst (run_targets rd render ts w)), snd (run_targets rd render ts w)).
Proof.
  intros Hnone. unfold getPlayersData_pickled.
  set (targets := elements (list_to_set (concat ls) : gset (option string))).
  assert (forall x, x ∈ targets <-> x ∈ concat ls) as Hin.
  { intros x. unfold targets. by rewrite elem_of_elements, elem_of_list_to_set. }
  assert (NoDup targets) as Hnd by apply NoDup_elements.
  assert (exists ts, targets = map Some ts) as [ts E].
  { exists (omap id targets). apply all_some_map. by rewrite Hin. }
  clearbody targets. subst targets.
  exists ts. split; [|split].
  - by apply (NoDup_fmap_1 Some).
  - intros x. by rewrite <- Hin, elem_of_map_some.
  - cbv zeta. unfold run_targets.
    destruct (load rd w) as [e|[d p]]; [reflexivity|].
    rewrite for_each_targets_some.
    by destruct (for_each _ _ _) as [r st].
Qed.

Lemma elem_of_concat_some (links : list (list string)) (x : option string) :
  x ∈ concat (map (map Some) links) <-> exists y, x = Some y /\ y ∈ concat links.
Proof.
  induction links as [|club links IH]; simpl.
  - rewrite elem_of_nil. split; [done|]. intros (y & _ & Hy). by apply elem_of_nil in Hy.
  - rewrite !elem_of_app, IH. split.
    + intros [H|(y & -> & Hy)].
      * apply list_elem_of_In, in_map_iff in H as (y & <- & Hy).
        exists y. split; [reflexivity|]. rewrite elem_of_app. left. by apply list_elem_of_In.
      * exists y. split; [reflexivity|]. rewrite elem_of_app. by right.
    + intros (y & -> & Hy). rewrite elem_of_app in Hy. destruct Hy as [Hy|Hy].
      * left. by apply list_elem_of_In, in_map, list_elem_of_In.
      * right. by exists y.
Qed.

Lemma pickled_run_none (ls : list (list (option string))) (w : World)
  (d : DataFrame) (p : list cell) :
  None ∈ concat ls ->
  load rd w = inr (d, p) ->
  exists ts,
    NoDup ts /\
    (forall x, x ∈ ts -> Some x ∈ concat ls) /\
    getPlayersData_pickled rd render (Some ls) w =
    (inl (Raised (none_has_no "split")),
     world (foldl (step render) {| data := d; processed_names := p; world := w |} ts)).
Proof.
  intros Hnone Hload. unfold getPlayersData_pickled.
  set (targets := elements (list_to_set (concat ls) : gset (option string))).
  assert (forall x, x ∈ targets <-> x ∈ concat ls) as Hin.
  { intros x. unfold targets. by rewrite elem_of_elements, elem_of_list_to_set. }
  assert (NoDup targets) as Hnd by apply NoDup_elements.
  apply Hin, list_elem_of_split in Hnone as (pre & post & E).
  clearbody targets. subst targets.
  apply NoDup_app in Hnd as (Hpre & Hdisj & _).
  assert (exists ts, pre = map Some ts) as [ts ->].
  { exists (omap id pre). apply all_some_map. intros H. apply (Hdisj _ H), list_elem_of_here. }
  exists ts. split; [|split].
  - by apply (NoDup_fmap_1 Some).
  - intros x Hx. apply Hin. rewrite elem_of_app. left. by apply elem_of_map_some.
  - cbv zeta. by rewrite Hload, for_each_abort.
Qed.

End PickledFacts.

(** X16. [getPlayersData] reads its links from the link file: without the
    file it raises FileNotFoundError before anything else, with no request
    and the data file untouched; with a file whose entries are all texts it
    is the run over the distinct links of the file, visited in some order. *)
Theorem pickled_run (rd : Reader) (render : string -> result Page)
  (links : list (list string)) (w : World) :
  getPlayersData_pickled rd render None w = (inl (FileNotFoundError players_path), w) /\
  exists ts,
    ts ≡ₚ links_flat links /\
    getPlayersData_pickled rd render (Some (map (map Some) links)) w =
    (as_error (fst (run_targets rd render ts w)), snd (run_targets rd render ts w)).
Proof.
  split; [reflexivity|].
  destruct (pickled_run_some rd render (map (map Some) links) w) as (ts & Hnd & Hin & Hrun).
  { rewrite elem_of_concat_some. by intros (y & Hy & _). }
  exists ts. split; [|exact Hrun].
  apply NoDup_Permutation; [exact Hnd|apply NoDup_links_flat|].
  intros x. rewrite Hin, elem_of_concat_some, elem_of_links_flat. split.
  - intros (y & Hy & H). by inversion Hy.
  - intros H. by exists x.
Qed.

(** X17. An entry of the link file that is [None] (a player anchor without
    href) is not isolated like a failing page: once the data set is loaded,
    the run raises AttributeError when it reaches that entry and stops; what
    was committed for the targets visited before stays in the file, and the
    targets after it are not visited. *)
Theorem none_link_aborts (rd : Reader) (render : string -> result Page)
  (ls : list (list (option string))) (w : World) (d : DataFrame) (p : list cell)
  (Hnone : None ∈ concat ls)
  (Hload : load rd w = inr (d, p)) :
  exists visited,
    NoDup visited /\
    (forall x, x ∈ visited -> Some x ∈ concat ls) /\
    getPlayersData_pickled rd render (Some ls) w =
    (inl (Raised (none_has_no "split")),
     world (exec (for_each visited (process_link render))
                 {| data := d; processed_names := p; world := w |})).
Proof.
  destruct (pickled_run_none rd render ls w d p Hnone Hload) as (ts & Hnd & Hin & Hrun).
  exists ts. rewrite exec_for_each. by repeat split.
Qed.

Lemma none_link_aborts_witness :
  fst (getPlayersData_pickled sample_reader sample_render (Some [[Some link_A; None]]) fresh_world)
  = inl (Raised (none_has_no "split")).
Proof.
  destruct (none_link_aborts sample_reader sample_render [[Some link_A; None]] fresh_world
              (empty_frame schema) []) as (visited & _ & _ & ->).
  - simpl. apply list_elem_of_further, list_elem_of_here.
  - reflexivity.
  - reflexivity.
Defined.

(** X18. The two scrapers compose through the link file: after
    [getWhoScoredLinks] has ended normally, and when every player anchor of
    the team pages has an href, [getPlayersData] run on the file it wrote
    visits each distinct href of those pages exactly once, and nothing
    else. *)
Theorem links_then_players (TEAM_ID : gmap string string)
  (render_team : string -> result TeamPage)
  (rd : Reader) (render : string -> result Page)
  (names : list string) (url : string) (lw lw' : LinkWorld) (w : World)
  (Hwritten : getWhoScoredLinks TEAM_ID render_team names url lw = (inr tt, lw'))
  (Hhref : forall name id players a,
      name ∈ names -> TEAM_ID !! name = Some id ->
      render_team (team_url url id) = inr (Some players) ->
      a ∈ players -> is_Some (href a)) :
  exists targets,
    NoDup targets /\
    (forall x, x ∈ targets <->
       exists name id players a,
         name ∈ names /\ TEAM_ID !! name = Some id /\
         render_team (team_url url id) = inr (Some players) /\
         a ∈ players /\ href a = Some x) /\
    getPlayersData_pickled rd render (link_file lw') w =
    (as_error (fst (run_targets rd render targets w)), snd (run_targets rd render targets w)).
Proof.
  unfold getWhoScoredLinks in Hwritten.
  destruct (collect_links TEAM_ID render_team url names [] (team_requests lw))
    as [[e|all] reqs] eqn:E; [discriminate|].
  inversion Hwritten; subst lw'; clear Hwritten. simpl.
  apply collect_links_ok in E as (ls & Hls & -> & _ & _). simpl.
  assert (forall x, x ∈ concat ls <->
            exists name id players a,
              name ∈ names /\ TEAM_ID !! name = Some id /\
              render_team (team_url url id) = inr (Some players) /\
              a ∈ players /\ href a = x) as Hchar.
  { clear Hhref. induction Hls as [|name l names ls Hl _ IH]; intros x; simpl.
    - rewrite elem_of_nil. split; [done|].
      intros (name & _ & _ & _ & H & _). by apply elem_of_nil in H.
    - rewrite elem_of_app, IH. unfold club_links in Hl.
      destruct (TEAM_ID !! name) as [id|] eqn:Eid; [|discriminate].
      destruct (render_team (team_url url id)) as [e|[players|]] eqn:Er; try discriminate.
      inversion Hl; subst l. split.
      + intros [H|(n & i & ps & a & Hn & Hi & Hr & Ha & Hx)].
        * apply list_elem_of_In, in_map_iff in H as (a & Ha & Hin).
          exists name, id, players, a. repeat split; try done;
            [apply list_elem_of_here|by apply list_elem_of_In].
        * exists n, i, ps, a. repeat split; try done. by apply list_elem_of_further.
      + intros (n & i & ps & a & Hn & Hi & Hr & Ha & Hx).
        apply elem_of_cons in Hn as [->|Hn].
        * left. rewrite Eid in Hi. inversion Hi; subst i. rewrite Er in Hr.
          inversion Hr; subst ps. subst x. by apply list_elem_of_In, in_map, list_elem_of_In.
        * right. by exists n, i, ps, a. }
  destruct (pickled_run_some rd render ls w) as (ts & Hnd & Hin & Hrun).
  { rewrite Hchar. intros (name & id & players & a & Hn & Hi & Hr & Ha & Hx).
    destruct (Hhref name id players a Hn Hi Hr Ha) as [y Hy]. congruence. }
  exists ts. split; [exact Hnd|]. split; [|exact Hrun].
  intros x. by rewrite Hin, Hchar.
Qed.

Lemma links_then_players_witness :
  exists lw' targets,
    getWhoScoredLinks sample_TEAM_ID sample_render_team ["Arsenal"] teams_url no_links
    = (inr tt, lw') /\
    targets ≡ₚ [link_A; link_D] /\
    getPlayersData_pickled sample_reader sample_render (link_file lw') fresh_world =
    (as_error (fst (run_targets sample_reader sample_render targets fresh_world)),
     snd (run_targets sample_reader sample_render targets fresh_world)).
Proof.
  assert (exists lw', getWhoScoredLinks sample_TEAM_ID sample_render_team
                        ["Arsenal"] teams_url no_links = (inr tt, lw')) as [lw' Hw].
  { vm_compute. by eexists. }
  assert (forall name id players a,
             name ∈ ["Arsenal"] -> sample_TEAM_ID !! name = Some id ->
             sample_render_team (team_url teams_url id) = inr (Some players) ->
             a ∈ players -> is_Some (href a)) as Hhref.
  { intros name id players a Hn Hid Hr Ha.
    apply list_elem_of_singleton in Hn as ->. vm_compute in Hid. inversion Hid; subst id.
    vm_compute in Hr. inversion Hr; subst players.
    rewrite !elem_of_cons, elem_of_nil in Ha. destruct Ha as [->|[->|[]]]; by eexists. }
  destruct (links_then_players sample_TEAM_ID sample_render_team sample_reader sample_render
              ["Arsenal"] teams_url no_links lw' fresh_world Hw Hhref)
    as (targets & Hnd & Hin & Hrun).
  exists lw', targets. split; [exact Hw|]. split; [|exact Hrun].
  apply NoDup_Permutation; [exact Hnd| |].
  - apply (bool_decide_unpack _). vm_compute. exact I.
  - intros x. rewrite Hin, !elem_of_cons, elem_of_nil. split.
    + intros (name & id & players & a & Hn & Hid & Hr & Ha & Hx).
      apply list_elem_of_singleton in Hn as ->. vm_compute in Hid. inversion Hid; subst id.
      vm_compute in Hr. inversion Hr; subst players.
      rewrite !elem_of_cons, elem_of_nil in Ha.
      destruct Ha as [->|[->|[]]]; simpl in Hx; inversion Hx; tauto.
    + intros [->|[->|[]]].
      * exists "Arsenal", "13", sample_players, {| title := None; href := Some link_A |}.
        split; [apply list_elem_of_here|]. split; [by vm_compute|].
        split; [by vm_compute|]. split; [apply list_elem_of_here|reflexivity].
      * exists "Arsenal", "13", sample_players, {| title := None; href := Some link_D |}.
        split; [apply list_elem_of_here|]. split; [by vm_compute|].
        split; [by vm_compute|].
        split; [apply list_elem_of_further, list_elem_of_here|reflexivity].
Defined.

Lemma links_not_written_witness :
  exists w',
    getWhoScoredLinks sample_TEAM_ID sample_render_team ["Arsenal"; "Unknown FC"; "Paris"]
      teams_url {| link_file := Some [[Some link_C]]; team_requests := [] |}
    = (inl (KeyError "Unknown FC"), w') /\
    link_file w' = Some [[Some link_C]] /\
    team_requests w' = ["https://www.whoscored.com/Teams/13/"].
Proof.
  assert (exists w',
    getWhoScoredLinks sample_TEAM_ID sample_render_team ["Arsenal"; "Unknown FC"; "Paris"]
      teams_url {| link_file := Some [[Some link_C]]; team_requests := [] |}
    = (inl (KeyError "Unknown FC"), w')) as [w' Hw].
  { vm_compute. by eexists. }
  exists w'. split; [exact Hw|].
  destruct (links_not_written _ _ _ _ _ _ _ Hw) as (Hfile & _).
  split; [exact Hfile|]. clear Hfile. vm_compute in Hw. by inversion Hw.
Defined.

Lemma order_independent_witness :
  fst (run_targets sample_reader sample_render [link_A; link_D; link_B] fresh_world) =
  fst (run_targets sample_reader sample_render [link_B; link_A; link_D] fresh_world).
Proof.
  assert ([link_A; link_D; link_B] ≡ₚ [link_B; link_A; link_D]) as Hperm.
  { apply NoDup_Permutation.
    - apply (bool_decide_unpack _). vm_compute. exact I.
    - apply (bool_decide_unpack _). vm_compute. exact I.
    - intros x. rewrite !elem_of_cons, !elem_of_nil. tauto. }
  assert (NoDup (map player_name_of [link_A; link_D; link_B])) as Hnames.
  { apply (bool_decide_unpack _). vm_compute. exact I. }
  pose proof (order_independent sample_reader sample_render _ _ fresh_world Hperm Hnames) as H.
  destruct H as [H _]. exact H.
Defined.
